(** * aisap: AppImage detection, offset resolution and permission mutators

    A shallow embedding of the Go packages [helpers] (helpers/offset.go) and
    [aisap], and of the Zig implementation of the same container type, with
    the properties the design document states about them.

    Conventions.
    - A Go [string] / [[]byte] / file content is a Rocq [string]: a sequence
      of 8-bit [ascii] bytes.  [len] is [String.length].
    - A Go [int] is a 64-bit two's-complement integer (a 64-bit platform),
      modelled as [Z] with the wrap-around written out ([wrap_int]).
    - A Go function returning [(int, error)] returns a pair
      [Z * option error]; [None] is the [nil] error.
    - The filesystem the functions read is an explicit [World]. *)

From Stdlib Require Import ZArith Ascii String List Lia Bool.
From stdpp Require Import base option strings list gmap.

Local Open Scope string_scope.
Local Open Scope Z_scope.

(** ** Bytes and machine integers *)

Definition byte_val (c : ascii) : Z := Z.of_N (N_of_ascii c).

(** Go [int] on a 64-bit platform: values are kept in [-2^63, 2^63). *)
Definition wrap_int (z : Z) : Z := (z + 2 ^ 63) mod 2 ^ 64 - 2 ^ 63.

(** [encoding/binary]: an unsigned integer read from a byte string. *)
Inductive ByteOrder := LittleEndian | BigEndian.

Fixpoint uint_le (s : string) : Z :=
  match s with
  | EmptyString => 0
  | String c rest => byte_val c + 256 * uint_le rest
  end.

Fixpoint uint_be_acc (acc : Z) (s : string) : Z :=
  match s with
  | EmptyString => acc
  | String c rest => uint_be_acc (256 * acc + byte_val c) rest
  end.

Definition uint_of (bo : ByteOrder) (s : string) : Z :=
  match bo with
  | LittleEndian => uint_le s
  | BigEndian => uint_be_acc 0 s
  end.

(** ** Errors *)

Inductive NumErr := ErrSyntax | ErrRange.

Inductive error :=
| errorString (msg : string)            (* errors.New *)
| PathError (op path : string)          (* os.Open on a missing file *)
| NumError (fn num : string) (e : NumErr) (* strconv *)
| FormatError (msg : string)            (* debug/elf *)
| ErrInvalid                            (* os: use of a nil *os.File *)
| ErrUnexpectedEOF.                     (* io, encoding/binary *)

(** ** The filesystem seen by the package *)

Record World := mkWorld {
  files : gmap string string;   (* regular files: path to content *)
  dirs : gset string;           (* directories that exist *)
  denied : gset string          (* directories that cannot be created *)
}.

Definition os_Open (w : World) (path : string) : option string :=
  files w !! path.

(** ** Magic numbers *)

Definition ELF_MAGIC : string := String "127" "ELF".
Definition AI_TYPE1 : string := "AI" ++ String "001" EmptyString.
Definition AI_TYPE2 : string := "AI" ++ String "002" EmptyString.
Definition SHIMG_MAGIC : string :=
  "#!/bin/sh" ++ String "010" "#.shImg.#".

Module helpers.

(** [io.ReadFull] after [Seek(pos, io.SeekStart)]: exactly [n] bytes, or an
    error when the file ends before that. *)
Definition ReadFull (r : string) (pos n : nat) : option string :=
  let got := substring pos n r in
  if (String.length got =? n)%nat then Some got else None.

(** The comparison loop of [HasMagic]:
    [for i := 0; i < len(str); i++ { if magic[i] != str[i] return false }]. *)
Fixpoint magic_loop (magic str : string) : bool :=
  match str with
  | EmptyString => true
  | String c str' =>
      match magic with
      | EmptyString => false
      | String m magic' =>
          if Ascii.eqb m c then magic_loop magic' str' else false
      end
  end.

Definition HasMagic (r : string) (str : string) (offset : nat) : bool :=
  match ReadFull r offset (String.length str) with
  | None => false
  | Some magic => magic_loop magic str
  end.

(** [GetAppImageType]: [1] type 1, [2] type 2, [0] unknown but valid ELF,
    [-2] shappimage; [-1] with an error otherwise. *)
Definition ErrNoType : error := errorString "unable to get AppImage type".

Definition GetAppImageType (w : World) (src : string) : Z * option error :=
  match os_Open w src with
  | None => (-1, Some (PathError "open" src))
  | Some f =>
      if HasMagic f ELF_MAGIC 0 then
        if HasMagic f AI_TYPE1 8 then (1, None)
        else if HasMagic f AI_TYPE2 8 then (2, None)
        else (0, None)
      else if HasMagic f SHIMG_MAGIC 0 then (-2, None)
      else (-1, Some ErrNoType)
  end.

(** *** Library functions used by the shappimage scan *)

Definition NL : ascii := "010".
Definition CR : ascii := "013".

(** [strings.Split(s, sep)] for a one-byte separator. *)
Fixpoint Split_from (s : string) (sep : ascii) (cur : string) : list string :=
  match s with
  | EmptyString => [cur]
  | String c rest =>
      if Ascii.eqb c sep then cur :: Split_from rest sep EmptyString
      else Split_from rest sep (cur ++ String c EmptyString)
  end.

Definition strings_Split (s : string) (sep : ascii) : list string :=
  Split_from s sep EmptyString.

(** [strings.ReplaceAll(s, old, new)] for a one-byte [old]. *)
Fixpoint strings_ReplaceAll (s : string) (old : ascii) (new : string) : string :=
  match s with
  | EmptyString => EmptyString
  | String c rest =>
      if Ascii.eqb c old then new ++ strings_ReplaceAll rest old new
      else String c (strings_ReplaceAll rest old new)
  end.

(** [strconv.Atoi], through [ParseInt(s, 10, 0)] and [ParseUint(s, 10, 64)]
    (the fast path of [Atoi] for short inputs computes the same result). *)
Definition maxUint64 : Z := 2 ^ 64 - 1.

Definition digit_val (c : ascii) : option Z :=
  let v := byte_val c in
  if (48 <=? v) && (v <=? 57) then Some (v - 48) else None.

Fixpoint ParseUint_loop (s : string) (n : Z) : Z * option NumErr :=
  match s with
  | EmptyString => (n, None)
  | String c rest =>
      match digit_val c with
      | None => (0, Some ErrSyntax)
      | Some d =>
          if maxUint64 / 10 + 1 <=? n then (maxUint64, Some ErrRange)
          else
            let n1 := n * 10 + d in
            if maxUint64 <? n1 then (maxUint64, Some ErrRange)
            else ParseUint_loop rest n1
      end
  end.

Definition ParseUint (s : string) : Z * option NumErr :=
  match s with
  | EmptyString => (0, Some ErrSyntax)
  | _ => ParseUint_loop s 0
  end.

Definition ParseInt (s : string) : Z * option NumErr :=
  match s with
  | EmptyString => (0, Some ErrSyntax)
  | String c rest =>
      let neg := Ascii.eqb c "-" in
      let digits := if Ascii.eqb c "+" || neg then rest else s in
      match ParseUint digits with
      | (_, Some ErrSyntax) => (0, Some ErrSyntax)
      | (un, _) =>
          if negb neg && (2 ^ 63 <=? un) then (2 ^ 63 - 1, Some ErrRange)
          else if neg && (2 ^ 63 <? un) then (- 2 ^ 63, Some ErrRange)
          else (if neg then - un else un, None)
      end
  end.

Definition strconv_Atoi (s : string) : Z * option error :=
  match ParseInt s with
  | (n, None) => (n, None)
  | (n, Some e) => (n, Some (NumError "Atoi" s e))
  end.

(** [bufio.Scanner] with the default [ScanLines] split function: the file
    is cut at every newline, one trailing carriage return is dropped from
    each line, a non-empty unterminated last line is a line, and scanning
    stops at a line that does not fit the 64 KiB token buffer. *)
Definition MaxScanTokenSize : Z := 64 * 1024.

Fixpoint raw_lines (data : string) (cur : string) : list string :=
  match data with
  | EmptyString => match cur with EmptyString => [] | _ => [cur] end
  | String c rest =>
      if Ascii.eqb c NL then cur :: raw_lines rest EmptyString
      else raw_lines rest (cur ++ String c EmptyString)
  end.

Definition dropCR_rev (r : list ascii) : list ascii :=
  match r with
  | c :: r' => if Ascii.eqb c CR then r' else r
  | [] => []
  end.

Definition dropCR (line : string) : string :=
  string_of_list_ascii (rev (dropCR_rev (rev (list_ascii_of_string line)))).

Fixpoint scannable (raw : list string) : list string :=
  match raw with
  | [] => []
  | l :: rest =>
      if Z.of_nat (String.length l) <? MaxScanTokenSize
      then dropCR l :: scannable rest
      else []
  end.

Definition Scanner_lines (data : string) : list string :=
  scannable (raw_lines data EmptyString).

(** *** [getShappImageSize] *)

Definition ErrNoSfsOffset : error :=
  errorString "unable to find shappimage offset from `sfs_offset` variable".

(** The condition of the [if] in the scan loop. *)
Definition is_offset_line (text : string) : bool :=
  (10 <? String.length text)%nat
  && String.eqb (substring 0 11 text) "sfs_offset="
  && (length (strings_Split text "=") =? 2)%nat.

(** The body of the [if]: the value after [=], quotes removed, through
    [strconv.Atoi]; [return int(o), err]. *)
Definition offset_of_line (text : string) : Z * option error :=
  let offHex := nth 1 (strings_Split text "=") EmptyString in
  let offHex := strings_ReplaceAll offHex "'" EmptyString in
  let offHex := strings_ReplaceAll offHex "034" EmptyString in
  strconv_Atoi offHex.

(** [for scanner.Scan() { ... }] followed by the final [return]. *)
Fixpoint scan_for_offset (lines : list string) : Z * option error :=
  match lines with
  | [] => (-1, Some ErrNoSfsOffset)
  | text :: rest =>
      if is_offset_line text then offset_of_line text
      else scan_for_offset rest
  end.

Definition getShappImageSize (w : World) (src : string) : Z * option error :=
  match os_Open w src with
  | None => (-1, Some (PathError "open" src))
  | Some f => scan_for_offset (Scanner_lines f)
  end.

(** *** [getElfSize] *)

(** [debug/elf]: [type Class byte] with [ELFCLASS32 = 1], [ELFCLASS64 = 2];
    the part of [elf.File] the function reads. *)
Definition ELFCLASS32 : Z := 1.
Definition ELFCLASS64 : Z := 2.

Record elf_File := mkElfFile { Class : Z; FileByteOrder : ByteOrder }.

(** [elf.Header64] and [elf.Header32], in declaration order. *)
Record Header := mkHeader {
  Ident : string; Type_ : Z; Machine : Z; Version : Z;
  Entry : Z; Phoff : Z; Shoff : Z; Flags : Z; Ehsize : Z;
  Phentsize : Z; Phnum : Z; Shentsize : Z; Shnum : Z; Shstrndx : Z
}.

Definition field (bo : ByteOrder) (b : string) (off n : nat) : Z :=
  uint_of bo (substring off n b).

(** [binary.Read(sr, order, hdr)] after [sr.Seek(0, 0)]: the struct is
    filled from its packed encoding, or the read fails on a short file. *)
Definition Read_Header64 (f : string) (bo : ByteOrder) : option Header :=
  match ReadFull f 0 64 with
  | None => None
  | Some b =>
      Some (mkHeader (substring 0 16 b) (field bo b 16 2) (field bo b 18 2)
              (field bo b 20 4) (field bo b 24 8) (field bo b 32 8)
              (field bo b 40 8) (field bo b 48 4) (field bo b 52 2)
              (field bo b 54 2) (field bo b 56 2) (field bo b 58 2)
              (field bo b 60 2) (field bo b 62 2))
  end.

Definition Read_Header32 (f : string) (bo : ByteOrder) : option Header :=
  match ReadFull f 0 52 with
  | None => None
  | Some b =>
      Some (mkHeader (substring 0 16 b) (field bo b 16 2) (field bo b 18 2)
              (field bo b 20 4) (field bo b 24 4) (field bo b 28 4)
              (field bo b 32 4) (field bo b 36 4) (field bo b 40 2)
              (field bo b 42 2) (field bo b 44 2) (field bo b 46 2)
              (field bo b 48 2) (field bo b 50 2))
  end.

(** [return shoff + (shentsize * shnum), nil] on Go [int]s. *)
Definition elf_size (hdr : Header) : Z :=
  let shoff := wrap_int (Shoff hdr) in
  let shnum := wrap_int (Shnum hdr) in
  let shentsize := wrap_int (Shentsize hdr) in
  wrap_int (shoff + wrap_int (shentsize * shnum)).

Section WithElfLibrary.

(** [elf.NewFile] of the Go standard library: it validates the whole file
    (identification, program and section tables) and reports the class and
    byte order it found. *)
Variable elf_NewFile : string -> error + elf_File.

Definition getElfSize (w : World) (src : string) : Z * option error :=
  match os_Open w src with
  | None => (-1, Some ErrInvalid)      (* elf.NewFile on the nil file *)
  | Some f =>
      match elf_NewFile f with
      | inl err => (-1, Some err)
      | inr e =>
          if Class e =? ELFCLASS64 then
            match Read_Header64 f (FileByteOrder e) with
            | None => (-1, Some ErrUnexpectedEOF)
            | Some hdr => (elf_size hdr, None)
            end
          else if Class e =? ELFCLASS32 then
            match Read_Header32 f (FileByteOrder e) with
            | None => (-1, Some ErrUnexpectedEOF)
            | Some hdr => (elf_size hdr, None)
            end
          else (0, None)
      end
  end.

(** *** [GetOffset] *)

Definition ErrMissingMagic : error :=
  errorString "AppImage missing `AI\0x02` magic at offset 0x08!".
Definition ErrUnsupportedType : error :=
  errorString "unsupported AppImage type".

Definition GetOffset (w : World) (src : string) : Z * option error :=
  match GetAppImageType w src with
  | (_, Some err) => (-1, Some err)
  | (format, None) =>
      if format =? -2 then getShappImageSize w src
      else if format =? 2 then getElfSize w src
      else if format =? 0 then (-1, Some ErrMissingMagic)
      else (-1, Some ErrUnsupportedType)
  end.

End WithElfLibrary.

(** [elf.NewFile], as far as this development relies on it: the checks of
    [e_ident] (magic, class, data encoding, version), the reading of the
    header of that class, the sign of [shoff] as an [int64], and the
    reading of the section header table, which fails when the table does
    not lie inside the file.  The further checks of the library (program
    headers, section names, compressed sections) are not part of this
    model.  A [FormatError] is given by its message; a read that ends
    early gives [io.EOF]. *)
Definition io_EOF : error := errorString "EOF".

Definition NewFile_ident (f : string) : error + elf_File :=
  match ReadFull f 0 16 with
  | None => inl io_EOF
  | Some ident =>
      if negb (String.eqb (substring 0 4 ident) ELF_MAGIC)
      then inl (FormatError "bad magic number")
      else
        let class := field LittleEndian ident 4 1 in
        let data := field LittleEndian ident 5 1 in
        if negb ((class =? ELFCLASS32) || (class =? ELFCLASS64))
        then inl (FormatError "unknown ELF class")
        else if negb ((data =? 1) || (data =? 2))
        then inl (FormatError "unknown ELF data encoding")
        else if negb (field LittleEndian ident 6 1 =? 1)
        then inl (FormatError "unknown ELF version")
        else
          let bo := if data =? 1 then LittleEndian else BigEndian in
          match (if class =? ELFCLASS64 then Read_Header64 f bo
                 else Read_Header32 f bo) with
          | None => inl io_EOF
          | Some hdr =>
              if 2 ^ 63 <=? Shoff hdr
              then inl (FormatError "invalid shoff")
              else if (0 <? Shnum hdr)
                      && (Z.of_nat (String.length f)
                          <? Shoff hdr + Shentsize hdr * Shnum hdr)
              then inl io_EOF
              else inr (mkElfFile class bo)
          end
  end.

End helpers.

(** ** The Zig implementation *)

Module Zig.

Inductive Kind := shimg | type1 | type2.

Inductive ZigError :=
| InvalidFormat | InvalidFromat | UnknownAppImageVersion | NotShimg
| StreamTooLong | EndOfStream | InvalidCharacter | Overflow
| InvalidElfMagic | InvalidElfVersion | InvalidElfEndian | InvalidElfClass.

(** An error union, plus the safety panic of checked arithmetic. *)
Inductive Result (A : Type) :=
| Ok (a : A)
| Err (e : ZigError)
| Panic (msg : string).
Arguments Ok {A} a.
Arguments Err {A} e.
Arguments Panic {A} msg.

#[local] Instance Result_bind : MBind Result := fun A B k r =>
  match r with
  | Ok a => k a
  | Err e => Err e
  | Panic m => Panic m
  end.

(** Arithmetic on [uN]: an out-of-range result is a checked overflow. *)
Definition checked (bits : Z) (v : Z) : Result Z :=
  if (0 <=? v) && (v <? 2 ^ bits) then Ok v else Panic "integer overflow".

(** [getKind]: [file.readAll(&buf)] on a 19-byte buffer. *)
Definition getKind (file : string) : Result Kind :=
  let buf := substring 0 19 file in
  let read_len := String.length buf in
  if (read_len <? 19)%nat then Err InvalidFormat
  else if String.eqb buf SHIMG_MAGIC then Ok shimg
  else if String.eqb (substring 0 4 buf) ELF_MAGIC then
    if negb (String.eqb (substring 8 2 buf) "AI") then Err InvalidFromat
    else
      let v := uint_le (substring 10 1 buf) in
      if v =? 1 then Ok type1
      else if v =? 2 then Ok type2
      else Err UnknownAppImageVersion
  else Err InvalidFormat.

(** [std.elf.Header] of the Zig standard library: [shoff] is a [u64],
    [shentsize] and [shnum] are [u16], as in the ELF header itself. *)
Record Header := mkHeader {
  endian : ByteOrder; is_64 : bool;
  shoff : Z; shentsize : Z; shnum : Z
}.

(** [std.elf.Header.read]: the first 64 bytes, checked for magic, version,
    data encoding and class, decoded in the declared byte order. *)
Definition Header_read (file : string) : Result Header :=
  match helpers.ReadFull file 0 64 with
  | None => Err EndOfStream
  | Some b =>
      if negb (String.eqb (substring 0 4 b) ELF_MAGIC) then Err InvalidElfMagic
      else if negb (uint_le (substring 6 1 b) =? 1) then Err InvalidElfVersion
      else
        let data := uint_le (substring 5 1 b) in
        let class := uint_le (substring 4 1 b) in
        if negb ((data =? 1) || (data =? 2)) then Err InvalidElfEndian
        else if negb ((class =? 1) || (class =? 2)) then Err InvalidElfClass
        else
          let bo := if data =? 1 then LittleEndian else BigEndian in
          if class =? 2 then
            Ok (mkHeader bo true (helpers.field bo b 40 8)
                  (helpers.field bo b 58 2) (helpers.field bo b 60 2))
          else
            Ok (mkHeader bo false (helpers.field bo b 32 4)
                  (helpers.field bo b 46 2) (helpers.field bo b 48 2))
  end.

(** [return header.shoff + (header.shentsize * header.shnum);]
    the product of two [u16] is a [u16], the sum with a [u64] a [u64]. *)
Definition getOffsetFromElf (file : string) : Result Z :=
  header ← Header_read file;
  prod ← checked 16 (shentsize header * shnum header);
  checked 64 (shoff header + prod).

(** *** [getOffsetFromShimg] *)

(** [readUntilDelimiterOrEof(&buf, '\n')] on a 256-byte buffer: the next
    line and the rest of the stream, [None] at the end of the stream,
    [StreamTooLong] when 256 bytes pass without a newline. *)
Fixpoint readUntilDelimiterOrEof (data : string) (index : nat) (acc : string)
  : Result (option (string * string)) :=
  if (256 <=? index)%nat then Err StreamTooLong
  else
    match data with
    | EmptyString =>
        Ok (match index with O => None | _ => Some (acc, EmptyString) end)
    | String c rest =>
        if Ascii.eqb c helpers.NL then Ok (Some (acc, rest))
        else readUntilDelimiterOrEof rest (S index) (acc ++ String c EmptyString)
    end.

(** [std.mem.tokenize(u8, text, "=")]: the non-empty runs between
    delimiters. *)
Definition tokenize (text : string) (delim : ascii) : list string :=
  filter (fun t => t ≠ EmptyString) (helpers.strings_Split text delim).

(** [std.fmt.parseInt(u64, buf, 0)] of the Zig standard library: an
    optional sign, a radix taken from a [0b], [0o] or [0x] prefix (decimal
    without one), digits with [_] separators inside. *)
Definition lower (v : Z) : Z := if (65 <=? v) && (v <=? 90) then v + 32 else v.

Definition charToDigit (c : ascii) (radix : Z) : Result Z :=
  let v := byte_val c in
  let d := if (48 <=? v) && (v <=? 57) then v - 48
           else if (97 <=? lower v) && (lower v <=? 122) then lower v - 97 + 10
           else 255 in
  if d <? radix then Ok d else Err InvalidCharacter.

Fixpoint parse_digits (s : string) (radix : Z) (neg : bool) (x : Z) : Result Z :=
  match s with
  | EmptyString => Ok x
  | String c rest =>
      if Ascii.eqb c "_" then parse_digits rest radix neg x
      else
        d ← charToDigit c radix;
        let x1 := x * radix in
        let x2 := if neg then x1 - d else x1 + d in
        if (0 <=? x2) && (x2 <? 2 ^ 64) then parse_digits rest radix neg x2
        else Err Overflow
  end.

Definition last_byte (s : string) : option ascii :=
  last (list_ascii_of_string s).

Definition parseWithSign (buf : string) (neg : bool) : Result Z :=
  match buf with
  | EmptyString => Err InvalidCharacter
  | String c0 rest0 =>
      let prefixed :=
        match rest0 with
        | String c1 (String c2 rest2) =>
            if Ascii.eqb c0 "0" then
              let l := lower (byte_val c1) in
              if l =? 98 then Some (2, String c2 rest2)
              else if l =? 111 then Some (8, String c2 rest2)
              else if l =? 120 then Some (16, String c2 rest2)
              else None
            else None
        | _ => None
        end in
      let '(radix, digits) := default (10, buf) prefixed in
      match digits with
      | EmptyString => Err InvalidCharacter
      | String d0 _ =>
          if Ascii.eqb d0 "_" || bool_decide (last_byte digits = Some "_"%char)
          then Err InvalidCharacter
          else parse_digits digits radix neg 0
      end
  end.

Definition parseInt (buf : string) : Result Z :=
  match buf with
  | EmptyString => Err InvalidCharacter
  | String c rest =>
      if Ascii.eqb c "+" then parseWithSign rest false
      else if Ascii.eqb c "-" then parseWithSign rest true
      else parseWithSign buf false
  end.

(** The [while] loop; [remaining] counts the lines still allowed, so that
    [line > 512] is [remaining = 0]. *)
Fixpoint shimg_loop (remaining : nat) (data : string) : Result Z :=
  match readUntilDelimiterOrEof data 0 EmptyString with
  | Panic m => Panic m
  | Err e => Err e
  | Ok None => Err InvalidFormat
  | Ok (Some (text, rest)) =>
      match remaining with
      | O => Err NotShimg
      | S remaining' =>
          if (10 <? String.length text)%nat
             && String.eqb (substring 0 11 text) "sfs_offset="
          then
            match tokenize text "=" with
            | _ :: value :: _ => parseInt value
            | _ => Err NotShimg
            end
          else shimg_loop remaining' rest
      end
  end.

Definition getOffsetFromShimg (file : string) : Result Z :=
  shimg_loop 512 file.

(** *** [loadDesktopEntry] *)

(** [std.fs.path.extension] of a file name. *)
Fixpoint last_dot (s : string) (i : nat) (found : option nat) : option nat :=
  match s with
  | EmptyString => found
  | String c rest =>
      last_dot rest (S i) (if Ascii.eqb c "." then Some i else found)
  end.

Definition extension (filename : string) : string :=
  match last_dot filename 0 None with
  | None | Some O => EmptyString
  | Some i => substring i (String.length filename - i) filename
  end.

Section Root.

(** The mounted root: [root.openFile(name)] followed by [readAll]. *)
Variable openFile : string -> Result string.

(** The [while (try it.next()) |entry|] loop over the root's entries, with
    the local [found] and the caller's [buf]. *)
Fixpoint entry_loop (names : list string) (found : bool) (buf : string)
  : Result (bool * string) :=
  match names with
  | [] => Ok (found, buf)
  | name :: rest =>
      if negb (String.eqb (extension name) ".desktop")
      then entry_loop rest found buf
      else
        content ← openFile name;
        entry_loop rest true
          (substring 0 (String.length buf) content
           ++ substring (String.length content) (String.length buf) buf)
  end.

Definition loadDesktopEntry (names : list string) (buf : string) : Result Z :=
  _ ← entry_loop names false buf;
  Ok 0.

End Root.

(** *** [open] and [close] *)

(** A mounted SquashFS image, as the library hands it out: the names in
    its root directory and the reading of a root file. *)
Record SquashFs := mkSquashFs {
  root_entries : list string;
  root_openFile : string -> Result string
}.

Record AppImage := mkAppImage { sqfs : SquashFs; kind : Kind }.

Section WithSquashFs.

(** [SquashFs.open(allocator, file, .{ .offset = offset })], and the
    undefined content of the 4096-byte buffer of [open]. *)
Variable SquashFs_open : string -> Z -> Result SquashFs.
Variable undefined_buf : string.

(** [open]; the state is the number of images that are open and not
    closed.  [errdefer sqfs.close()] runs when [loadDesktopEntry] returns
    an error. *)
Definition open (file : string) (live : nat) : Result AppImage * nat :=
  match getKind file with
  | Panic m => (Panic m, live)
  | Err e => (Err e, live)
  | Ok k =>
      match (match k with
             | type1 | type2 => getOffsetFromElf file
             | shimg => getOffsetFromShimg file
             end) with
      | Panic m => (Panic m, live)
      | Err e => (Err e, live)
      | Ok offset =>
          match SquashFs_open file offset with
          | Panic m => (Panic m, live)
          | Err e => (Err e, live)
          | Ok s =>
              let live := S live in
              match loadDesktopEntry (root_openFile s) (root_entries s)
                      undefined_buf with
              | Panic m => (Panic m, live)
              | Err e => (Err e, pred live)
              | Ok _ => (Ok (mkAppImage s k), live)
              end
          end
      end
  end.

End WithSquashFs.

(** [close]: [appimage.sqfs.close()]. *)
Definition close (appimage : AppImage) (live : nat) : nat := pred live.

End Zig.

(** ** The Go package [aisap] *)

(** [path/filepath] on Unix: [Clean] and [Join]. *)
Fixpoint clean_elems (rooted : bool) (elems : list string) (stack : list string)
  : list string :=
  match elems with
  | [] => rev stack
  | e :: rest =>
      if String.eqb e EmptyString || String.eqb e "." then clean_elems rooted rest stack
      else if String.eqb e ".." then
        match stack with
        | top :: stack' =>
            if String.eqb top ".." then clean_elems rooted rest (e :: stack)
            else clean_elems rooted rest stack'
        | [] =>
            if rooted then clean_elems rooted rest stack
            else clean_elems rooted rest (e :: stack)
        end
      else clean_elems rooted rest (e :: stack)
  end.

Definition filepath_Clean (path : string) : string :=
  match path with
  | EmptyString => "."
  | String c _ =>
      let rooted := Ascii.eqb c "/" in
      let body :=
        String.concat "/" (clean_elems rooted (helpers.strings_Split path "/") []) in
      let out := if rooted then String "/" body else body in
      match out with EmptyString => "." | _ => out end
  end.

Definition filepath_Join (a b : string) : string :=
  match a, b with
  | EmptyString, EmptyString => EmptyString
  | EmptyString, _ => filepath_Clean b
  | _, _ => filepath_Clean (a ++ String "/" b)
  end.

(** [strconv.Itoa]. *)
Fixpoint decimal (fuel : nat) (n : Z) (acc : string) : string :=
  match fuel with
  | O => acc
  | S fuel' =>
      let acc' := String (ascii_of_N (Z.to_N (48 + n mod 10))) acc in
      if n <? 10 then acc' else decimal fuel' (n / 10) acc'
  end.

Definition strconv_Itoa (n : Z) : string :=
  if n <? 0 then String "-" (decimal 20 (- n) EmptyString)
  else decimal 20 n EmptyString.

Module aisap.

(** A call returns, or the goroutine panics. *)
Inductive outcome (A : Type) :=
| Returned (a : A)
| Panicked (msg : string).
Arguments Returned {A} a.
Arguments Panicked {A} msg.

Definition nil_deref : string :=
  "invalid memory address or nil pointer dereference".
Definition index_out_of_range : string := "index out of range".
Definition slice_out_of_range : string := "slice bounds out of range".

(** [permissions.AppImagePerms]: the fields the package reads and
    writes. *)
Record AppImagePerms := mkPerms {
  Level : Z;
  Files : list string;
  Devices : list string;
  Sockets : list string;
  Share : list string
}.

(** A parsed desktop entry ([*ini.File]): sections of key/value pairs. *)
Definition ini_File : Type := list (string * list (string * string)).

Definition ini_Value (f : ini_File) (section key : string) : string :=
  match list_find (fun s => s.1 = section) f with
  | None => EmptyString
  | Some (_, (_, keys)) =>
      match list_find (fun kv => kv.1 = key) keys with
      | None => EmptyString
      | Some (_, (_, v)) => v
      end
  end.

(** The package-level variables. *)
Module pkg.
Record vars := mk {
  usern : string;
  homed : string;
  uid : string;
  dataDir : string;
  rootDir : string;
  tempDir : string;
  err : option error
}.
Definition init : vars := mk EmptyString EmptyString EmptyString EmptyString "/" "/tmp" None.
End pkg.

(** [type AppImage struct]; [Perms] is a pointer into the heap of
    permission records, [None] is the nil pointer. *)
Record AppImage := mkAppImage {
  Desktop : option ini_File;
  Perms : option nat;
  Path : string;
  dataDir : string;
  rootDir : string;
  tempDir : string;
  mountDir : string;
  runId : string;
  Name : string;
  Version : string;
  Offset : Z;
  imageType : Z;
  rmMountDir : bool
}.

Definition zero_AppImage : AppImage :=
  mkAppImage None None EmptyString EmptyString EmptyString EmptyString EmptyString EmptyString EmptyString EmptyString 0 0 false.

(** The state of the process: package variables and the heap. *)
Record Process := mkProcess {
  vars : pkg.vars;
  heap : gmap nat AppImagePerms
}.

(** The operating-system account of the process. *)
Record User := mkUser { Username : string; HomeDir : string }.
Record Account := mkAccount {
  user_Current : option User;    (* [None]: [user.Current] failed *)
  os_Getuid : Z
}.

Definition TempDir (ai : AppImage) : string := tempDir ai.
Definition MountDir (ai : AppImage) : string := mountDir ai.
Definition RunId (ai : AppImage) : string := runId ai.

(** *** Grants *)

(** One round of the loop of [AddFiles]: [s[i]] gets [:ro] unless it
    already ends in [:ro] or [:rw]; the slice [s[i][len(s[i])-3:]] is out
    of range for an entry shorter than three bytes. *)
Definition needs_ro (entry ex : string) : bool :=
  (length (helpers.strings_Split entry ":") <? 2)%nat
  || (negb (String.eqb ex ":ro") && negb (String.eqb ex ":rw")).

Fixpoint AddFiles_loop (rounds i : nat) (s : list string)
  : outcome (list string) :=
  match rounds with
  | O => Returned s
  | S rounds' =>
      match s !! i with
      | None => Panicked index_out_of_range
      | Some entry =>
          if (String.length entry <? 3)%nat then Panicked slice_out_of_range
          else
            let ex := substring (String.length entry - 3) 3 entry in
            let s' := if needs_ro entry ex
                      then <[i := entry ++ ":ro"]> s else s in
            AddFiles_loop rounds' (S i) s'
      end
  end.

(** Writes through the pointer [ai.Perms]. *)
Definition update_Perms (ai : AppImage) (p : Process)
  (f : AppImagePerms -> AppImagePerms) : outcome Process :=
  match Perms ai with
  | None => Panicked nil_deref
  | Some l =>
      match heap p !! l with
      | None => Panicked nil_deref
      | Some perms => Returned (mkProcess (vars p) (<[l := f perms]> (heap p)))
      end
  end.

(** [AddFiles] returns the caller's slice, rewritten in place, and the new
    state. *)
Definition AddFiles (ai : AppImage) (s : list string) (p : Process)
  : outcome (list string * Process) :=
  match AddFiles_loop (length s) 0 s with
  | Panicked m => Panicked m
  | Returned s' =>
      match update_Perms ai p (fun perms =>
              mkPerms (Level perms) (Files perms ++ s') (Devices perms)
                (Sockets perms) (Share perms)) with
      | Panicked m => Panicked m
      | Returned p' => Returned (s', p')
      end
  end.

Definition AddDevices (ai : AppImage) (s : list string) (p : Process)
  : outcome Process :=
  update_Perms ai p (fun perms =>
    mkPerms (Level perms) (Files perms) (Devices perms ++ s)
      (Sockets perms) (Share perms)).

Definition AddSockets (ai : AppImage) (s : list string) (p : Process)
  : outcome Process :=
  update_Perms ai p (fun perms =>
    mkPerms (Level perms) (Files perms) (Devices perms)
      (Sockets perms ++ s) (Share perms)).

Definition AddShare (ai : AppImage) (s : list string) (p : Process)
  : outcome Process :=
  update_Perms ai p (fun perms =>
    mkPerms (Level perms) (Files perms) (Devices perms)
      (Sockets perms) (Share perms ++ s)).

(** *** Directory overrides: assignments to the package variables *)

Definition set_vars (p : Process) (v : pkg.vars) : Process :=
  mkProcess v (heap p).

Definition SetRootDir (ai : AppImage) (d : string) (p : Process) : Process :=
  let v := vars p in
  set_vars p (pkg.mk (pkg.usern v) (pkg.homed v) (pkg.uid v) (pkg.dataDir v)
                d (pkg.tempDir v) (pkg.err v)).

Definition SetDataDir (ai : AppImage) (d : string) (p : Process) : Process :=
  let v := vars p in
  set_vars p (pkg.mk (pkg.usern v) (pkg.homed v) (pkg.uid v) d
                (pkg.rootDir v) (pkg.tempDir v) (pkg.err v)).

Definition SetTempDir (ai : AppImage) (d : string) (p : Process) : Process :=
  let v := vars p in
  set_vars p (pkg.mk (pkg.usern v) (pkg.homed v) (pkg.uid v) (pkg.dataDir v)
                (pkg.rootDir v) d (pkg.err v)).

(** *** Isolation level *)

Definition ErrLevel : error :=
  errorString "permissions level must be int from 0-3".

Section WithAccount.

Variable acct : Account.

(** [updateHome]: the error it returns and the package variables it
    leaves. *)
Definition updateHome (l : Z) (v : pkg.vars) : outcome (option error * pkg.vars) :=
  let finish (usern : string) :=
    Returned (None,
      pkg.mk usern (filepath_Join "/home" usern)
        (strconv_Itoa (os_Getuid acct))
        (pkg.dataDir v) (pkg.rootDir v) (pkg.tempDir v) (pkg.err v)) in
  if (l =? 1) || (l =? 0) then
    match user_Current acct with
    | None => Panicked nil_deref
    | Some usr => finish (Username usr)
    end
  else if (1 <? l) && (l <=? 3) then finish "ai"
  else Returned (Some ErrLevel, v).

(** [SetLevel]: [err = updateHome(l)] assigns the package variable
    [err]. *)
Definition SetLevel (ai : AppImage) (l : Z) (p : Process)
  : outcome (option error * Process) :=
  match updateHome l (vars p) with
  | Panicked m => Panicked m
  | Returned (e, v) =>
      let v' := pkg.mk (pkg.usern v) (pkg.homed v) (pkg.uid v)
                  (pkg.dataDir v) (pkg.rootDir v) (pkg.tempDir v) e in
      let p' := set_vars p v' in
      match e with
      | Some _ => Returned (e, p')
      | None =>
          match update_Perms ai p' (fun perms =>
                  mkPerms l (Files perms) (Devices perms)
                    (Sockets perms) (Share perms)) with
          | Panicked m => Panicked m
          | Returned p'' => Returned (None, p'')
          end
      end
  end.

End WithAccount.

(** *** Opening an AppImage *)

Definition set_Path (ai : AppImage) (v : string) : AppImage :=
  mkAppImage (Desktop ai) (Perms ai) v (dataDir ai) (rootDir ai) (tempDir ai)
    (mountDir ai) (runId ai) (Name ai) (Version ai) (Offset ai) (imageType ai)
    (rmMountDir ai).
Definition set_runId (ai : AppImage) (v : string) : AppImage :=
  mkAppImage (Desktop ai) (Perms ai) (Path ai) (dataDir ai) (rootDir ai)
    (tempDir ai) (mountDir ai) v (Name ai) (Version ai) (Offset ai)
    (imageType ai) (rmMountDir ai).
Definition set_tempDir (ai : AppImage) (v : string) : AppImage :=
  mkAppImage (Desktop ai) (Perms ai) (Path ai) (dataDir ai) (rootDir ai) v
    (mountDir ai) (runId ai) (Name ai) (Version ai) (Offset ai) (imageType ai)
    (rmMountDir ai).
Definition set_mountDir (ai : AppImage) (v : string) : AppImage :=
  mkAppImage (Desktop ai) (Perms ai) (Path ai) (dataDir ai) (rootDir ai)
    (tempDir ai) v (runId ai) (Name ai) (Version ai) (Offset ai) (imageType ai)
    true.
Definition set_Offset (ai : AppImage) (v : Z) : AppImage :=
  mkAppImage (Desktop ai) (Perms ai) (Path ai) (dataDir ai) (rootDir ai)
    (tempDir ai) (mountDir ai) (runId ai) (Name ai) (Version ai) v
    (imageType ai) (rmMountDir ai).
Definition set_entry (ai : AppImage) (entry : ini_File) (name version : string)
  : AppImage :=
  mkAppImage (Some entry) (Perms ai) (Path ai) (dataDir ai) (rootDir ai)
    (tempDir ai) (mountDir ai) (runId ai) name version (Offset ai)
    (imageType ai) (rmMountDir ai).
Definition set_Perms (ai : AppImage) (l : nat) : AppImage :=
  mkAppImage (Desktop ai) (Some l) (Path ai) (dataDir ai) (rootDir ai)
    (tempDir ai) (mountDir ai) (runId ai) (Name ai) (Version ai) (Offset ai)
    (imageType ai) (rmMountDir ai).

(** Modelled from the spec: [helpers.MakeTemp] is not among the sources at
    hand.  It creates the directory [name] under [dir] and returns its
    path; the directory is then on disk. *)
Definition MakeTemp (w : World) (dir name : string)
  : (string * option error) * World :=
  let path := filepath_Join dir name in
  if bool_decide (path ∈ denied w)
  then ((path, Some (PathError "mkdir" path)), w)
  else ((path, None), mkWorld (files w) ({[path]} ∪ dirs w) (denied w)).

(** [ioutil.ReadFile]. *)
Definition ioutil_ReadFile (w : World) (path : string) : string * option error :=
  match files w !! path with
  | Some content => (content, None)
  | None => (EmptyString, Some (PathError "open" path))
  end.

Section Open.

(** What [NewAppImage] calls outside this file: the ELF library, the
    account of the process, the clock and [helpers.RandString], the mount
    of the SquashFS image, [filepath.Glob], [ini.Load] and
    [getPermsFromAppImage].  The last is given the container and the
    permission records of the process; it returns a pointer, nil or the
    address of a record, and the records as it leaves them (its error is
    dropped by the caller). *)
Variable elf_NewFile : string -> error + helpers.elf_File.
Variable acct : Account.
Variable now : Z.
Variable RandString : Z -> Z -> string.
Variable Mount : World -> string -> string -> Z -> option error * World.
Variable filepath_Glob : World -> string -> list string * option error.
Variable ini_Load : string -> option ini_File.
Variable getPermsFromAppImage :
  World -> AppImage -> gmap nat AppImagePerms ->
  option nat * gmap nat AppImagePerms.

Definition opened : Type := (option AppImage * option error) * Process * World.

(** From [filepath.Glob] to the end. *)
Definition load_entry (ai : AppImage) (p : Process) (w : World)
  : outcome opened :=
  match filepath_Glob w (mountDir ai ++ "/*.desktop") with
  | (_, Some e) => Returned ((None, Some e), p, w)
  | (fp, None) =>
      match fp with
      | [] => Panicked index_out_of_range                     (* fp[0] *)
      | fp0 :: _ =>
          let '(e, err) := ioutil_ReadFile w fp0 in
          match ini_Load e with
          | None => Panicked nil_deref                        (* entry.Section *)
          | Some entry =>
              let name := ini_Value entry "Desktop Entry" "Name" in
              let version :=
                ini_Value entry "Desktop Entry" "X-AppImage-Version" in
              let version :=
                if String.eqb version EmptyString then "1.0" else version in
              let ai := set_entry ai entry name version in
              let '(ptr, h) := getPermsFromAppImage w ai (heap p) in
              let p := mkProcess (vars p) h in
              match ptr with
              | None => Panicked nil_deref                    (* ai.Perms.Level *)
              | Some l =>
                  let ai := set_Perms ai l in
                  match h !! l with
                  | None => Panicked nil_deref
                  | Some perms =>
                      match SetLevel acct ai (Level perms) p with
                      | Panicked m => Panicked m
                      | Returned (_, p) => Returned ((Some ai, err), p, w)
                      end
                  end
              end
          end
      end
  end.

Definition NewAppImage (src : string) (p : Process) (w : World)
  : outcome opened :=
  let ai := set_Path zero_AppImage src in
  let ai := set_runId ai (RandString now 8) in
  let '((dir, err), w) := MakeTemp w "/tmp" (".aisapTemp_" ++ RunId ai) in
  match err with
  | Some e => Returned ((None, Some e), p, w)
  | None =>
      let ai := set_tempDir ai dir in
      let '((dir, _), w) := MakeTemp w (TempDir ai) (".mount_" ++ RunId ai) in
      let ai := set_mountDir ai dir in          (* and rmMountDir = true *)
      match helpers.GetOffset elf_NewFile w src with
      | (_, Some e) => Returned ((None, Some e), p, w)
      | (off, None) =>
          let ai := set_Offset ai off in
          match Mount w src (mountDir ai) (Offset ai) with
          | (Some e, w) => Returned ((None, Some e), p, w)
          | (None, w) => load_entry ai p w
          end
      end
  end.

End Open.

(** *** [Type] (a reserved word here: [Type_]) *)

(** [t, _ := helpers.GetAppImageType(ai.Path); return t]. *)
Definition Type_ (ai : AppImage) (w : World) : Z :=
  (helpers.GetAppImageType w (Path ai)).1.

(** *** [Icon] and [Thumbnail] *)

(** [strings.HasSuffix]. *)
Definition strings_HasSuffix (s suffix : string) : bool :=
  (String.length suffix <=? String.length s)%nat
  && String.eqb
       (substring (String.length s - String.length suffix)
          (String.length suffix) s)
       suffix.

Definition has_icon_ext (s : string) : bool :=
  strings_HasSuffix s ".png" || strings_HasSuffix s ".svg".

(** [os.Open] of a file that is then only read: the reader is the content
    that is left to read. *)
Definition open_reader (w : World) (path : string)
  : option string * option error :=
  match os_Open w path with
  | Some content => (Some content, None)
  | None => (None, Some (PathError "open" path))
  end.

Definition ErrNoDesktop : error := errorString "desktop file wasn't parsed".
Definition ErrNoIcon : error :=
  errorString "desktop file doesn't specify an icon".
Definition ErrNoIconFile : error :=
  errorString
    "unable to find icon with valid extension (.png, .svg) inside AppImage".

(** The loop of [Icon] over the matches of the glob. *)
Fixpoint icon_loop (w : World) (fp : list string)
  : option string * string * option error :=
  match fp with
  | [] => (None, EmptyString, Some ErrNoIconFile)
  | v :: rest =>
      if has_icon_ext v then
        let '(r, err) := open_reader w v in (r, v, err)
      else icon_loop w rest
  end.

Section WithGlob.

Variable filepath_Glob : World -> string -> list string * option error.

Definition Icon (ai : AppImage) (w : World)
  : option string * string * option error :=
  match Desktop ai with
  | None => (None, EmptyString, Some ErrNoDesktop)
  | Some desktop =>
      let iconf := ini_Value desktop "Desktop Entry" "Icon" in
      if String.eqb iconf EmptyString then (None, EmptyString, Some ErrNoIcon)
      else if has_icon_ext iconf then
        let '(r, err) := open_reader w (filepath_Join (mountDir ai) iconf) in
        (r, iconf, err)
      else
        match filepath_Glob w (filepath_Join (mountDir ai) iconf ++ "*") with
        | (_, Some err) => (None, EmptyString, Some err)
        | (fp, None) => icon_loop w fp
        end
  end.

End WithGlob.

Definition PNG_MAGIC : string := String "137" "PNG".

(** [id := make([]byte, 4); io.ReadAtLeast(f, id, 4)]: the first four
    bytes of the stream, with zero bytes where the stream was shorter. *)
Definition read_id (content : string) : string :=
  let got := substring 0 4 content in
  got ++ string_of_list_ascii (repeat Ascii.zero (4 - String.length got)).

Definition set_err (p : Process) (e : option error) : Process :=
  let v := vars p in
  set_vars p (pkg.mk (pkg.usern v) (pkg.homed v) (pkg.uid v) (pkg.dataDir v)
                (pkg.rootDir v) (pkg.tempDir v) e).

Section WithImgconv.

(** [imgconv.ConvertWithAspect(f, 256, "png")] on the bytes of [f]. *)
Variable ConvertWithAspect :
  string -> Z -> string -> option string * option error.

(** [Thumbnail]: the reader it returns is what is left to read of it; both
    assignments to [err] are to the package variable. *)
Definition Thumbnail (ai : AppImage) (p : Process) (w : World)
  : (option string * option error) * Process :=
  match os_Open w (filepath_Join (mountDir ai) ".DirIcon") with
  | None =>
      let e := Some (PathError "open" (filepath_Join (mountDir ai) ".DirIcon")) in
      ((None, e), set_err p e)
  | Some content =>
      let p := set_err p None in
      let id := read_id content in
      let f := substring 4 (String.length content - 4) content in
      if negb (String.eqb id PNG_MAGIC) then
        let f := id ++ f in
        let '(out, e) := ConvertWithAspect f 256 "png" in
        ((out, e), set_err p e)
      else ((Some f, None), p)
  end.

End WithImgconv.

End aisap.

(** * Vocabulary of the properties *)

Definition has_prefix (p f : string) : Prop := ∃ rest, f = p ++ rest.

(** [bytes_at off m f]: the bytes of [m] stand in [f] from offset [off]. *)
Definition bytes_at (off : nat) (m f : string) : Prop :=
  ∃ pre rest, f = pre ++ m ++ rest ∧ String.length pre = off.

(** The five results of [GetAppImageType], by the names of the design
    document. *)
Definition Type1Elf : Z * option error := (1, None).
Definition Type2Elf : Z * option error := (2, None).
Definition UnknownElf : Z * option error := (0, None).
Definition ShellScript : Z * option error := (-2, None).
Definition InvalidFormat : Z * option error := (-1, Some helpers.ErrNoType).

Fixpoint count_byte (c : ascii) (s : string) : nat :=
  match s with
  | EmptyString => 0
  | String x rest => (if Ascii.eqb x c then 1 else 0) + count_byte c rest
  end.

(** The class byte of a file, [e_ident[EI_CLASS]], and what [elf.NewFile]
    does with it: a file is accepted only with the 32-bit or the 64-bit
    class in that byte, and the class reported is the one of the byte. *)
Definition class_byte (f : string) : Z := uint_le (substring 4 1 f).

Definition reports_class (NewFile : string → error + helpers.elf_File)
  : Prop :=
  ∀ f e, NewFile f = inr e →
    helpers.Class e = class_byte f
    ∧ (class_byte f = helpers.ELFCLASS32 ∨ class_byte f = helpers.ELFCLASS64).

(** A line that assigns [sfs_offset]: the prefix, then a value without
    another [=]. *)
Definition offset_line (text : string) : Prop :=
  ∃ v, text = "sfs_offset=" ++ v ∧ count_byte "=" v = 0%nat.

(** The value with every single and double quote taken out. *)
Definition unquote (v : string) : string :=
  string_of_list_ascii
    (filter (λ c, c ≠ "'"%char ∧ c ≠ "034"%char) (list_ascii_of_string v)).

(** [strconv.Atoi] on decimal digits. *)
Fixpoint dec_value (s : string) (acc : Z) : Z :=
  match s with
  | EmptyString => acc
  | String c rest => dec_value rest (acc * 10 + (byte_val c - 48))
  end.

Definition is_digit (c : ascii) : Prop := 48 ≤ byte_val c ≤ 57.

Fixpoint all_digits (s : string) : Prop :=
  match s with
  | EmptyString => True
  | String c rest => is_digit c ∧ all_digits rest
  end.

(** An entry that already names its access mode. *)
Definition has_mode (entry : string) : Prop :=
  ∃ path, entry = path ++ ":ro" ∨ entry = path ++ ":rw".

(** What [AddFiles] is to make of an entry. *)
Definition grant_of (entry grant : string) : Prop :=
  (has_mode entry ∧ grant = entry) ∨ (¬ has_mode entry ∧ grant = entry ++ ":ro").

Definition with_Files (perms : aisap.AppImagePerms) (fs : list string)
  : aisap.AppImagePerms :=
  aisap.mkPerms (aisap.Level perms) fs (aisap.Devices perms)
    (aisap.Sockets perms) (aisap.Share perms).

Definition with_Level (perms : aisap.AppImagePerms) (l : Z)
  : aisap.AppImagePerms :=
  aisap.mkPerms l (aisap.Files perms) (aisap.Devices perms)
    (aisap.Sockets perms) (aisap.Share perms).

Section RunDirectories.

(** The clock and [helpers.RandString], which give the run identifier. *)
Variable now : Z.
Variable RandString : Z → Z → string.

(** The scratch and the mount directory of this run, and the filesystem
    once [NewAppImage] has made them. *)
Definition scratch_dir : string :=
  filepath_Join "/tmp" (".aisapTemp_" ++ RandString now 8).
Definition mount_dir : string :=
  filepath_Join scratch_dir (".mount_" ++ RandString now 8).
Definition with_dirs (w : World) : World :=
  (aisap.MakeTemp
     (aisap.MakeTemp w "/tmp" (".aisapTemp_" ++ RandString now 8)).2
     scratch_dir (".mount_" ++ RandString now 8)).2.

End RunDirectories.

(** * Test data *)

(** Test files: a little-endian 64-bit ELF header with the given marker at
    offset 8 and the given section header table. *)
Fixpoint le_bytes (n : nat) (v : Z) : string :=
  match n with
  | O => EmptyString
  | S n' => String (ascii_of_N (Z.to_N (v mod 256))) (le_bytes n' (v / 256))
  end.

Definition zeros (n : Z) : string :=
  string_of_list_ascii (repeat Ascii.zero (Z.to_nat n)).

Definition elf64_header (marker : string) (shoff shentsize shnum : Z) : string :=
  ELF_MAGIC ++ le_bytes 1 2 ++ le_bytes 1 1 ++ le_bytes 1 1 ++ le_bytes 1 0
  ++ marker ++ zeros 5
  ++ le_bytes 2 2 ++ le_bytes 2 62 ++ le_bytes 4 1 ++ le_bytes 8 0
  ++ le_bytes 8 0 ++ le_bytes 8 shoff ++ le_bytes 4 0 ++ le_bytes 2 64
  ++ le_bytes 2 56 ++ le_bytes 2 0 ++ le_bytes 2 shentsize
  ++ le_bytes 2 shnum ++ le_bytes 2 0.

(** A type-2 file with 1024 empty section headers of 64 bytes right after
    the ELF header, followed by the start of the image. *)
Definition many_sections : string :=
  elf64_header AI_TYPE2 64 64 1024 ++ zeros (64 * 1024) ++ "hsqs".

(** Test files for the other ELF kinds: the same header with [AI\x01], and
    with no marker, and a type-2 file with 30 section headers. *)
Definition type1_file : string :=
  elf64_header AI_TYPE1 64 64 30 ++ zeros (64 * 30).
Definition plain_elf_file : string :=
  elf64_header (zeros 3) 64 64 30 ++ zeros (64 * 30).
Definition type2_file : string :=
  elf64_header AI_TYPE2 64 64 30 ++ zeros (64 * 30) ++ "hsqs".

(** The type-2 test file with the class byte 3 in place of 2. *)
Definition unknown_class_file : string :=
  ELF_MAGIC ++ le_bytes 1 3
  ++ substring 5 (String.length type2_file - 5) type2_file.

(** Test files: shappimages whose offset line is quoted, written in
    hexadecimal, and placed after 600 empty lines. *)
Definition line (s : string) : string := s ++ String helpers.NL EmptyString.

Definition quoted_shimg : string :=
  line SHIMG_MAGIC ++ line "sfs_offset='4096'" ++ line "exit 0".
Definition hex_shimg : string :=
  line SHIMG_MAGIC ++ line "sfs_offset=0x1000" ++ line "exit 0".
Definition late_shimg : string :=
  line SHIMG_MAGIC ++ string_of_list_ascii (repeat helpers.NL 600)
  ++ line "sfs_offset=4096".

(** A container whose permissions are the record at address 0, and a
    process that holds a fresh record there. *)
Definition app0 : aisap.AppImage :=
  aisap.set_Perms aisap.zero_AppImage 0.
Definition proc0 : aisap.Process :=
  aisap.mkProcess aisap.pkg.init {[ 0%nat := aisap.mkPerms 1 [] [] [] [] ]}.

(** The account of [root]: its recorded home directory is [/root]. *)
Definition root_account : aisap.Account :=
  aisap.mkAccount (Some (aisap.mkUser "root" "/root")) 0.

(** Two open containers with their own permission records. *)
Definition appA : aisap.AppImage :=
  aisap.set_runId (aisap.set_Perms aisap.zero_AppImage 0) "aaaaaaaa".
Definition appB : aisap.AppImage :=
  aisap.set_runId (aisap.set_Perms aisap.zero_AppImage 1) "bbbbbbbb".
Definition proc2 : aisap.Process :=
  aisap.mkProcess aisap.pkg.init
    {[ 0%nat := aisap.mkPerms 1 [] [] [] [];
       1%nat := aisap.mkPerms 1 [] [] [] [] ]}.

(** The state that a call returned (that of the test when it did
    not). *)
Definition returned_state {A} (o : aisap.outcome (A * aisap.Process))
  : aisap.Process :=
  match o with
  | aisap.Returned (_, p) => p
  | aisap.Panicked _ => proc2
  end.

(** A run of [NewAppImage]: the run identifier is [abcdefgh], the mount
    succeeds and changes nothing, the mounted root has no [.desktop]
    file. *)
Definition open_here : string → aisap.Process → World →
    aisap.outcome aisap.opened :=
  aisap.NewAppImage helpers.NewFile_ident root_account 0
    (λ _ _, "abcdefgh") (λ w _ _ _, (None, w)) (λ _ _, ([], None))
    (λ _, None) (λ _ _ h, (None, h)).

Definition disk (content : string) : World :=
  mkWorld {[ "/app" := content ]} {[ "/tmp" ]} ∅.

(** * Further test data *)

(** A little-endian 32-bit ELF header with [AI\x02] at offset 8, and a
    type-2 file with 30 section headers of 40 bytes behind it. *)
Definition elf32_header (shoff shentsize shnum : Z) : string :=
  ELF_MAGIC ++ le_bytes 1 1 ++ le_bytes 1 1 ++ le_bytes 1 1 ++ le_bytes 1 0
  ++ AI_TYPE2 ++ zeros 5
  ++ le_bytes 2 2 ++ le_bytes 2 3 ++ le_bytes 4 1 ++ le_bytes 4 0
  ++ le_bytes 4 0 ++ le_bytes 4 shoff ++ le_bytes 4 0 ++ le_bytes 2 52
  ++ le_bytes 2 32 ++ le_bytes 2 0 ++ le_bytes 2 shentsize
  ++ le_bytes 2 shnum ++ le_bytes 2 0.

Definition elf32_file : string :=
  elf32_header 52 40 30 ++ zeros (12 + 40 * 30) ++ "hsqs".

(** A shappimage whose offset line holds a negative number. *)
Definition negative_shimg : string :=
  line SHIMG_MAGIC ++ line "sfs_offset=-512" ++ line "exit 0".

(** * Further vocabulary *)

(** The package variables that a successful [SetLevel v] leaves. *)
Definition identity_at (acct : aisap.Account) (name : string)
    (v : aisap.pkg.vars) : aisap.pkg.vars :=
  aisap.pkg.mk name (filepath_Join "/home" name)
    (strconv_Itoa (aisap.os_Getuid acct))
    (aisap.pkg.dataDir v) (aisap.pkg.rootDir v) (aisap.pkg.tempDir v) None.

Definition with_Devices (perms : aisap.AppImagePerms) (ds : list string)
  : aisap.AppImagePerms :=
  aisap.mkPerms (aisap.Level perms) (aisap.Files perms) ds
    (aisap.Sockets perms) (aisap.Share perms).

Definition with_Sockets (perms : aisap.AppImagePerms) (ss : list string)
  : aisap.AppImagePerms :=
  aisap.mkPerms (aisap.Level perms) (aisap.Files perms) (aisap.Devices perms)
    ss (aisap.Share perms).

Definition with_Share (perms : aisap.AppImagePerms) (ss : list string)
  : aisap.AppImagePerms :=
  aisap.mkPerms (aisap.Level perms) (aisap.Files perms) (aisap.Devices perms)
    (aisap.Sockets perms) ss.

(** The process with the permission record at [l] replaced. *)
Definition with_record (p : aisap.Process) (l : nat)
    (perms : aisap.AppImagePerms) : aisap.Process :=
  aisap.mkProcess (aisap.vars p) (<[l := perms]> (aisap.heap p)).

(** A run of [NewAppImage] that succeeds: the mount puts one desktop entry
    into the mount directory, the glob finds it, and
    [getPermsFromAppImage] allocates a record at level 1. *)
Definition desktop_path : string :=
  "/tmp/.aisapTemp_abcdefgh/.mount_abcdefgh/app.desktop".

Definition open_ok : string → aisap.Process → World →
    aisap.outcome aisap.opened :=
  aisap.NewAppImage helpers.NewFile_ident root_account 0
    (λ _ _, "abcdefgh")
    (λ w _ _ _,
       (None, mkWorld (<[desktop_path := "[Desktop Entry]"]> (files w))
                (dirs w) (denied w)))
    (λ _ _, ([desktop_path], None))
    (λ _, Some [("Desktop Entry", [("Name", "App")])])
    (λ _ _ h,
       (Some (fresh (dom h)),
        <[fresh (dom h) := aisap.mkPerms 1 [] [] [] []]> h)).

(** An opened container with a mount directory and a desktop entry that
    names the icon [app], and a mounted root with the icon files. *)
Definition app_with_icon (icon : string) : aisap.AppImage :=
  aisap.set_entry (aisap.set_mountDir aisap.zero_AppImage "/mnt")
    [("Desktop Entry", [("Icon", icon)])] "App" "1.0".

Definition mounted_icons : World :=
  mkWorld {[ "/mnt/app.svg" := "<svg/>";
             "/mnt/.DirIcon" := aisap.PNG_MAGIC ++ "rest of the image" ]}
    {[ "/mnt" ]} ∅.

(** A name with one of the two icon extensions. *)
Definition icon_name (name : string) : Prop :=
  ∃ base, name = base ++ ".png" ∨ name = base ++ ".svg".

(** What the image converter is given for a stream that is no PNG: the
    content, filled up with zero bytes when it has fewer than four. *)
Definition padded (content : string) : string :=
  content
  ++ string_of_list_ascii (repeat Ascii.zero (4 - String.length content)).


(** The text made of the lines [ls], each with its newline, and then
    [tail]. *)
Definition unlines (ls : list string) (tail : string) : string :=
  fold_right (λ l acc, l ++ String helpers.NL acc) tail ls.

(** A line that fits the 256-byte line buffer of the Zig reader. *)
Definition short_line (l : string) : Prop :=
  count_byte helpers.NL l = 0%nat ∧ (String.length l ≤ 255)%nat.

(** A line that the Zig scan skips: it fits the buffer and does not start
    with [sfs_offset=]. *)
Definition skipped_line (l : string) : Prop :=
  short_line l ∧ ¬ has_prefix "sfs_offset=" l.

(** What may follow the last line read: the end of the file, or a newline
    and more. *)
Definition line_end (tail : string) : Prop :=
  tail = EmptyString ∨ ∃ rest, tail = String helpers.NL rest.

(** A shappimage with a plain decimal offset line. *)
Definition plain_shimg : string :=
  line SHIMG_MAGIC ++ line "sfs_offset=4096" ++ line "exit 0".

(** 512 comment lines, and a line of 256 letters. *)
Definition comment_lines : list string := repeat "#" 512.
Definition long_line : string := string_of_list_ascii (repeat "a"%char 256).

(** A root entry that [loadDesktopEntry] gets past: it is no desktop
    entry, or it opens. *)
Definition passes (openFile : string → Zig.Result string) (name : string)
  : Prop :=
  Zig.extension name = ".desktop" → ∃ content, openFile name = Zig.Ok content.

(** A mounted root with one desktop entry, and the library call that hands
    it out at offset 1984. *)
Definition small_root : Zig.SquashFs :=
  Zig.mkSquashFs ["AppRun"; "app.desktop"; ".DirIcon"]
    (λ name, if String.eqb name "app.desktop" then Zig.Ok "[Desktop Entry]"
             else Zig.Err Zig.EndOfStream).

Definition mount_at_1984 (file : string) (offset : Z)
  : Zig.Result Zig.SquashFs :=
  if offset =? 1984 then Zig.Ok small_root else Zig.Err Zig.InvalidFormat.
(** * Properties *)

(** ** Byte strings *)

Lemma app_nil_l (b : string) : EmptyString ++ b = b.
Proof. reflexivity. Qed.

Lemma app_cons (c : ascii) (a b : string) : String c a ++ b = String c (a ++ b).
Proof. reflexivity. Qed.

Lemma string_app_assoc (a b c : string) : (a ++ b) ++ c = a ++ b ++ c.
Proof.
  induction a as [|x a IH]; [done |]. rewrite !app_cons. by f_equal.
Qed.

Lemma string_length_app (a b : string) :
  String.length (a ++ b) = (String.length a + String.length b)%nat.
Proof.
  induction a as [|x a IH]; [done |]. rewrite app_cons. simpl. by f_equal.
Qed.

Lemma substring_take_app (m rest : string) :
  substring 0 (String.length m) (m ++ rest) = m.
Proof.
  induction m as [|x m IH]; [by destruct rest |].
  rewrite app_cons. simpl. by f_equal.
Qed.

Lemma substring_skip_app (pre s : string) (n : nat) :
  substring (String.length pre) n (pre ++ s) = substring 0 n s.
Proof.
  induction pre as [|x pre IH]; [done |]. rewrite app_cons. simpl. apply IH.
Qed.

Lemma substring_split (off n : nat) (f : string) :
  n ≠ 0%nat →
  String.length (substring off n f) = n →
  ∃ pre rest, f = pre ++ substring off n f ++ rest ∧ String.length pre = off.
Proof.
  intros Hn. revert f. induction off as [|off IH]; intros f Hlen.
  - exists EmptyString. clear Hn. revert f Hlen.
    induction n as [|n IHn]; intros f Hlen.
    + exists f. by destruct f.
    + destruct f as [|c f]; simpl in *; [done |].
      destruct (IHn f) as (rest & Hrest & _); [lia |].
      exists rest. split; [| done].
      rewrite app_nil_l in *. rewrite app_cons. by f_equal.
  - destruct f as [|c f].
    + destruct n; simpl in Hlen; done.
    + simpl in Hlen. destruct (IH f Hlen) as (pre & rest & Hf & Hpre).
      exists (String c pre), rest. rewrite app_cons. simpl.
      split; [by f_equal | lia].
Qed.

Lemma magic_loop_eq (magic str : string) :
  String.length magic = String.length str →
  helpers.magic_loop magic str = true ↔ magic = str.
Proof.
  revert magic. induction str as [|c str IH]; intros [|m magic] Hlen;
    simpl in *; try done.
  destruct (Ascii.eqb_spec m c) as [->|Hne].
  - rewrite IH; [| lia]. split; [by intros -> | by intros [= ->]].
  - split; [done | by intros [= -> _]].
Qed.

(** [HasMagic] holds exactly when the magic bytes stand at the offset. *)
Lemma HasMagic_spec (f str : string) (off : nat) :
  str ≠ EmptyString →
  helpers.HasMagic f str off = true ↔ bytes_at off str f.
Proof.
  intros Hstr. unfold helpers.HasMagic, helpers.ReadFull. split.
  - destruct (Nat.eqb_spec (String.length (substring off (String.length str) f))
                (String.length str)) as [Hlen|]; [| done].
    intros Hm. apply magic_loop_eq in Hm; [| done].
    destruct (substring_split off (String.length str) f) as (pre & rest & Hf & Hpre);
      [by destruct str | done |].
    exists pre, rest. by rewrite Hm in Hf.
  - intros (pre & rest & -> & <-).
    rewrite substring_skip_app, substring_take_app, Nat.eqb_refl.
    by apply magic_loop_eq.
Qed.

Lemma HasMagic_prefix (f str : string) :
  str ≠ EmptyString →
  helpers.HasMagic f str 0 = true ↔ has_prefix str f.
Proof.
  intros Hstr. rewrite HasMagic_spec by done. split.
  - intros (pre & rest & -> & Hpre). destruct pre; [| done].
    rewrite app_nil_l. by exists rest.
  - intros (rest & ->). by exists EmptyString, rest.
Qed.

Lemma bytes_at_length (off : nat) (m f : string) :
  bytes_at off m f → (off + String.length m ≤ String.length f)%nat.
Proof.
  intros (pre & rest & -> & <-). rewrite !string_length_app. lia.
Qed.

(** ** Format detection ([helpers.GetAppImageType]) *)

Lemma HasMagic_same_window (f a b : string) (off : nat) :
  String.length a = String.length b → a ≠ b →
  helpers.HasMagic f a off = true → helpers.HasMagic f b off = false.
Proof.
  unfold helpers.HasMagic, helpers.ReadFull. intros Hab Hne. rewrite <- Hab.
  destruct (Nat.eqb_spec (String.length (substring off (String.length a) f))
              (String.length a)) as [Hlen|]; [| done].
  intros Ha. apply magic_loop_eq in Ha; [| done].
  apply not_true_is_false. intros Hb.
  apply magic_loop_eq in Hb; [| by rewrite Hlen]. congruence.
Qed.

(** C4 (amended).  For every file content, [GetAppImageType] returns
    exactly one of five results, and each is characterised by the header
    bytes: ELF magic with [AI\x01] at offset 8 is type 1, with [AI\x02] type
    2; ELF magic with anything else there, or with a file too short to hold
    the three bytes, is the unknown ELF; a file without ELF magic that starts
    with the 19-byte shell marker is a shappimage; everything else, so every
    input shorter than 4 bytes and every input without ELF magic shorter
    than 19 bytes, is rejected with an error. *)
Theorem GetAppImageType_outcomes (w : World) (src f : string) :
  os_Open w src = Some f →
  let r := helpers.GetAppImageType w src in
  let elf := has_prefix ELF_MAGIC f in
  (r = Type1Elf ↔ elf ∧ bytes_at 8 AI_TYPE1 f) ∧
  (r = Type2Elf ↔ elf ∧ bytes_at 8 AI_TYPE2 f) ∧
  (r = UnknownElf ↔ elf ∧ ¬ bytes_at 8 AI_TYPE1 f ∧ ¬ bytes_at 8 AI_TYPE2 f) ∧
  (r = ShellScript ↔ ¬ elf ∧ has_prefix SHIMG_MAGIC f) ∧
  (r = InvalidFormat ↔ ¬ elf ∧ ¬ has_prefix SHIMG_MAGIC f) ∧
  (r = Type1Elf ∨ r = Type2Elf ∨ r = UnknownElf ∨ r = ShellScript
   ∨ r = InvalidFormat) ∧
  ((String.length f < 4)%nat → r = InvalidFormat) ∧
  (¬ elf → (String.length f < 19)%nat → r = InvalidFormat) ∧
  (elf → (String.length f < 11)%nat → r = UnknownElf).
Proof.
  intros Hopen r elf. subst r elf. unfold helpers.GetAppImageType.
  rewrite Hopen.
  pose proof (HasMagic_prefix f ELF_MAGIC ltac:(done)) as Helf.
  pose proof (HasMagic_prefix f SHIMG_MAGIC ltac:(done)) as Hsh.
  pose proof (HasMagic_spec f AI_TYPE1 8 ltac:(done)) as H1.
  pose proof (HasMagic_spec f AI_TYPE2 8 ltac:(done)) as H2.
  pose proof (HasMagic_same_window f AI_TYPE1 AI_TYPE2 8 eq_refl ltac:(done)) as H12.
  assert (Hlen4 : has_prefix ELF_MAGIC f → (4 ≤ String.length f)%nat).
  { intros [rest ->]. rewrite string_length_app. simpl. lia. }
  assert (Hlen19 : has_prefix SHIMG_MAGIC f → (19 ≤ String.length f)%nat).
  { intros [rest ->]. rewrite string_length_app. simpl. lia. }
  pose proof (bytes_at_length 8 AI_TYPE1 f) as Hb1.
  pose proof (bytes_at_length 8 AI_TYPE2 f) as Hb2.
  simpl in Hb1, Hb2.
  unfold Type1Elf, Type2Elf, UnknownElf, ShellScript, InvalidFormat.
  destruct (helpers.HasMagic f ELF_MAGIC 0);
    destruct (helpers.HasMagic f AI_TYPE1 8);
    destruct (helpers.HasMagic f AI_TYPE2 8);
    destruct (helpers.HasMagic f SHIMG_MAGIC 0);
    try (specialize (H12 eq_refl); discriminate H12);
    intuition (discriminate || lia || eauto).
Qed.

(** The four-byte file that is only the ELF magic is shorter than the
    19-byte probe window, and is classified as the unknown ELF, not
    rejected. *)
Lemma short_elf_is_unknown :
  (String.length ELF_MAGIC < 19)%nat
  ∧ helpers.GetAppImageType (mkWorld {[ "app" := ELF_MAGIC ]} ∅ ∅) "app"
    = UnknownElf
  ∧ UnknownElf ≠ InvalidFormat.
Proof. split; [simpl; lia | split; [reflexivity | discriminate]]. Qed.

Lemma GetAppImageType_outcomes_witness :
  let w := mkWorld {[ "app" := ELF_MAGIC ++ "...." ++ AI_TYPE2 ]} ∅ ∅ in
  helpers.GetAppImageType w "app" = Type2Elf
  ↔ has_prefix ELF_MAGIC (ELF_MAGIC ++ "...." ++ AI_TYPE2)
    ∧ bytes_at 8 AI_TYPE2 (ELF_MAGIC ++ "...." ++ AI_TYPE2).
Proof.
  exact (proj1 (proj2 (GetAppImageType_outcomes
    (mkWorld {[ "app" := ELF_MAGIC ++ "...." ++ AI_TYPE2 ]} ∅ ∅) "app"
    (ELF_MAGIC ++ "...." ++ AI_TYPE2) eq_refl))).
Defined.

Lemma substring_length_src (off n : nat) (s : string) :
  (String.length (substring off n s) ≤ String.length s)%nat.
Proof.
  revert off n. induction s as [|c s IH]; intros [|off] [|n]; simpl;
    try lia.
  - specialize (IH 0%nat n). lia.
  - specialize (IH off 0%nat). lia.
  - specialize (IH off (S n)). lia.
Qed.

(** The Zig detection rejects every input shorter than its 19-byte window,
    and has no kind for an ELF file without the marker: such a file is an
    error. *)
Lemma getKind_short_or_unmarked (f : string) :
  ((String.length f < 19)%nat → Zig.getKind f = Zig.Err Zig.InvalidFormat)
  ∧ Zig.getKind plain_elf_file = Zig.Err Zig.InvalidFromat
  ∧ Zig.getKind type1_file = Zig.Ok Zig.type1.
Proof.
  split; [| split; vm_compute; reflexivity].
  intros Hlen. unfold Zig.getKind.
  pose proof (substring_length_src 0 19 f).
  destruct (Nat.ltb_spec (String.length (substring 0 19 f)) 19); [done | lia].
Qed.

(** ** Integers read from the header *)

Lemma wrap_int_small (z : Z) : - 2 ^ 63 ≤ z < 2 ^ 63 → wrap_int z = z.
Proof. intros Hz. unfold wrap_int. rewrite Z.mod_small; lia. Qed.

Lemma byte_val_range (c : ascii) : 0 ≤ byte_val c < 256.
Proof.
  unfold byte_val. pose proof (N_ascii_bounded c). lia.
Qed.

Lemma uint_le_range (s : string) :
  0 ≤ uint_le s < 256 ^ Z.of_nat (String.length s).
Proof.
  induction s as [|c s IH]; simpl String.length; [simpl; lia |].
  rewrite Nat2Z.inj_succ, Z.pow_succ_r by lia. simpl uint_le.
  pose proof (byte_val_range c). lia.
Qed.

Lemma uint_be_acc_range (s : string) (acc : Z) (k : Z) :
  0 ≤ k → 0 ≤ acc < 256 ^ k →
  0 ≤ uint_be_acc acc s < 256 ^ (k + Z.of_nat (String.length s)).
Proof.
  revert acc k. induction s as [|c s IH]; intros acc k Hk Hacc.
  - simpl. by rewrite Z.add_0_r.
  - simpl String.length. simpl uint_be_acc.
    replace (k + Z.of_nat (S (String.length s)))
      with ((k + 1) + Z.of_nat (String.length s)) by lia.
    apply IH; [lia |]. rewrite Z.pow_add_r by lia.
    pose proof (byte_val_range c). lia.
Qed.

Lemma substring_length_le (off n : nat) (s : string) :
  (String.length (substring off n s) ≤ n)%nat.
Proof.
  revert off n. induction s as [|c s IH]; intros [|off] [|n]; simpl;
    try lia.
  - specialize (IH 0%nat n). lia.
  - apply IH.
  - apply IH.
Qed.

Lemma substring_length_full (off n : nat) (s : string) :
  (off + n ≤ String.length s)%nat → String.length (substring off n s) = n.
Proof.
  revert off n. induction s as [|c s IH]; intros [|off] [|n] Hlen;
    simpl in *; try lia.
  - f_equal. apply (IH 0%nat n). lia.
  - apply (IH off 0%nat). lia.
  - apply (IH off (S n)). lia.
Qed.

Lemma substring_substring (a n m : nat) (s : string) :
  (a + n ≤ m)%nat → substring a n (substring 0 m s) = substring a n s.
Proof.
  revert a n m. induction s as [|c s IH]; intros a n m Hle.
  - destruct m; destruct a, n; reflexivity.
  - destruct m as [|m].
    + assert (a = 0%nat ∧ n = 0%nat) as [-> ->] by lia. reflexivity.
    + destruct a as [|a].
      * destruct n as [|n]; [reflexivity |]. simpl. f_equal.
        apply (IH 0%nat n m). lia.
      * simpl. apply (IH a n m). lia.
Qed.

Lemma field_range (bo : ByteOrder) (b : string) (off n : nat) :
  0 ≤ helpers.field bo b off n < 256 ^ Z.of_nat n.
Proof.
  unfold helpers.field.
  pose proof (substring_length_le off n b) as Hlen.
  assert (Hpow : 256 ^ Z.of_nat (String.length (substring off n b))
                 ≤ 256 ^ Z.of_nat n) by (apply Z.pow_le_mono_r; lia).
  destruct bo; unfold uint_of.
  - pose proof (uint_le_range (substring off n b)). lia.
  - pose proof (uint_be_acc_range (substring off n b) 0 0) as Hbe.
    rewrite Z.add_0_l in Hbe. specialize (Hbe ltac:(lia) ltac:(done)). lia.
Qed.

Lemma Read_Header64_ranges (f : string) (bo : ByteOrder) (hdr : helpers.Header) :
  helpers.Read_Header64 f bo = Some hdr →
  0 ≤ helpers.Shoff hdr < 2 ^ 64
  ∧ 0 ≤ helpers.Shentsize hdr < 2 ^ 16 ∧ 0 ≤ helpers.Shnum hdr < 2 ^ 16.
Proof.
  unfold helpers.Read_Header64. destruct (helpers.ReadFull f 0 64) as [b|]; [| done].
  intros [= <-]. simpl.
  pose proof (field_range bo b 40 8). pose proof (field_range bo b 58 2).
  pose proof (field_range bo b 60 2). simpl in *. lia.
Qed.

Lemma Read_Header32_ranges (f : string) (bo : ByteOrder) (hdr : helpers.Header) :
  helpers.Read_Header32 f bo = Some hdr →
  0 ≤ helpers.Shoff hdr < 2 ^ 32
  ∧ 0 ≤ helpers.Shentsize hdr < 2 ^ 16 ∧ 0 ≤ helpers.Shnum hdr < 2 ^ 16.
Proof.
  unfold helpers.Read_Header32. destruct (helpers.ReadFull f 0 52) as [b|]; [| done].
  intros [= <-]. simpl.
  pose proof (field_range bo b 32 4). pose proof (field_range bo b 46 2).
  pose proof (field_range bo b 48 2). simpl in *. lia.
Qed.

Lemma elf_size_exact (hdr : helpers.Header) :
  0 ≤ helpers.Shoff hdr →
  0 ≤ helpers.Shentsize hdr < 2 ^ 16 → 0 ≤ helpers.Shnum hdr < 2 ^ 16 →
  helpers.Shoff hdr + helpers.Shentsize hdr * helpers.Shnum hdr < 2 ^ 63 →
  helpers.elf_size hdr
  = helpers.Shoff hdr + helpers.Shentsize hdr * helpers.Shnum hdr.
Proof.
  intros Ho Hs Hn Hsum. unfold helpers.elf_size.
  assert (0 ≤ helpers.Shentsize hdr * helpers.Shnum hdr < 2 ^ 32) by nia.
  rewrite !(wrap_int_small (helpers.Shoff hdr)),
    !(wrap_int_small (helpers.Shnum hdr)),
    !(wrap_int_small (helpers.Shentsize hdr)) by lia.
  rewrite (wrap_int_small (_ * _)) by lia.
  apply wrap_int_small. lia.
Qed.

Lemma ReadFull_Some (f b : string) (n : nat) :
  helpers.ReadFull f 0 n = Some b →
  b = substring 0 n f ∧ String.length b = n ∧ (n ≤ String.length f)%nat.
Proof.
  unfold helpers.ReadFull.
  destruct (Nat.eqb_spec (String.length (substring 0 n f)) n) as [Hlen|];
    [| done].
  intros [= <-]. repeat split; [done |].
  pose proof (substring_length_src 0 n f). lia.
Qed.

Lemma ReadFull_enough (f : string) (n : nat) :
  (n ≤ String.length f)%nat →
  helpers.ReadFull f 0 n = Some (substring 0 n f).
Proof.
  intros Hlen. unfold helpers.ReadFull.
  by rewrite (substring_length_full 0 n f), Nat.eqb_refl by lia.
Qed.

Lemma wrap_int_mod (z : Z) : wrap_int z mod 2 ^ 64 = z mod 2 ^ 64.
Proof.
  unfold wrap_int. rewrite Zminus_mod_idemp_l. f_equal. lia.
Qed.

Lemma wrap_int_congr (a b : Z) :
  a mod 2 ^ 64 = b mod 2 ^ 64 → wrap_int a = wrap_int b.
Proof.
  intros Hab. unfold wrap_int. f_equal.
  rewrite <- (Z.add_mod_idemp_l a), Hab, Z.add_mod_idemp_l by lia. done.
Qed.

(** The sum of [getElfSize] on [int]: the three conversions and the
    product wrap, and what is left is the sum of the header fields as an
    [int]. *)
Lemma elf_size_sum (hdr : helpers.Header) :
  helpers.elf_size hdr
  = wrap_int (helpers.Shoff hdr + helpers.Shentsize hdr * helpers.Shnum hdr).
Proof.
  unfold helpers.elf_size. apply wrap_int_congr.
  rewrite Z.add_mod, !wrap_int_mod by lia.
  rewrite Z.mul_mod, !wrap_int_mod by lia.
  rewrite <- Z.mul_mod by lia. by rewrite <- Z.add_mod by lia.
Qed.

(** The model of the ELF library accepts a file only with the class byte 1
    or 2, and reports that class. *)
Lemma NewFile_ident_reports_class : reports_class helpers.NewFile_ident.
Proof.
  intros f e. unfold helpers.NewFile_ident.
  destruct (helpers.ReadFull f 0 16) as [ident|] eqn:Hread; [| done].
  destruct (ReadFull_Some _ _ _ Hread) as (Hident & _ & _).
  assert (Hbyte : helpers.field LittleEndian ident 4 1 = class_byte f).
  { unfold helpers.field, class_byte. rewrite Hident.
    by rewrite substring_substring by lia. }
  rewrite Hbyte. cbv zeta.
  destruct (String.eqb (substring 0 4 ident) ELF_MAGIC); cbn [negb]; [| done].
  destruct ((class_byte f =? helpers.ELFCLASS32)
            || (class_byte f =? helpers.ELFCLASS64)) eqn:Hclass;
    cbn [negb]; [| done].
  destruct ((helpers.field LittleEndian ident 5 1 =? 1) || _);
    cbn [negb]; [| done].
  destruct (helpers.field LittleEndian ident 6 1 =? 1); cbn [negb]; [| done].
  destruct (if class_byte f =? helpers.ELFCLASS64 then _ else _); [| done].
  destruct (2 ^ 63 <=? _); [done |]. destruct (_ && _); [done |].
  intros [= <-]. cbn [helpers.Class]. split; [done |].
  apply orb_true_iff in Hclass as [H|H]; lia.
Qed.

(** ** Offset of an ELF AppImage *)

Lemma GetOffset_type2 (NewFile : string → error + helpers.elf_File)
    (w : World) (src : string) :
  helpers.GetAppImageType w src = Type2Elf →
  helpers.GetOffset NewFile w src = helpers.getElfSize NewFile w src.
Proof. unfold helpers.GetOffset. by intros ->. Qed.

(** X3.  The Go resolver on a 64-bit type-2 file whose section header
    table lies inside the file: exactly [O + S * N]. *)
Lemma GetOffset_elf64_exact (NewFile : string → error + helpers.elf_File)
    (w : World) (src f : string) (e : helpers.elf_File) (hdr : helpers.Header) :
  os_Open w src = Some f →
  helpers.GetAppImageType w src = Type2Elf →
  NewFile f = inr e →
  helpers.Class e = helpers.ELFCLASS64 →
  helpers.Read_Header64 f (helpers.FileByteOrder e) = Some hdr →
  helpers.Shoff hdr + helpers.Shentsize hdr * helpers.Shnum hdr
    ≤ Z.of_nat (String.length f) →
  Z.of_nat (String.length f) < 2 ^ 63 →
  helpers.GetOffset NewFile w src
  = (helpers.Shoff hdr + helpers.Shentsize hdr * helpers.Shnum hdr, None).
Proof.
  intros Hopen Hkind Hnew Hclass Hread Htable Hsize.
  rewrite GetOffset_type2 by done. unfold helpers.getElfSize.
  rewrite Hopen, Hnew, Hclass, Hread. simpl.
  destruct (Read_Header64_ranges _ _ _ Hread) as (Ho & Hs & Hn).
  rewrite elf_size_exact; [done | lia..].
Qed.

(** C1.  On a 64-bit type-2 ELF with section header table offset 64, entry
    size 64 and 1024 entries, the Zig resolver does not return
    [64 + 64 * 1024]: the product of the two 16-bit header fields overflows
    and the call panics.  The Go resolver returns [64 + 64 * 1024] on the
    same file. *)
Theorem getOffsetFromElf_overflow :
  Zig.getKind many_sections = Zig.Ok Zig.type2
  ∧ Zig.Header_read many_sections
    = Zig.Ok (Zig.mkHeader LittleEndian true 64 64 1024)
  ∧ Zig.getOffsetFromElf many_sections = Zig.Panic "integer overflow"
  ∧ helpers.GetOffset helpers.NewFile_ident
      (mkWorld {[ "app" := many_sections ]} ∅ ∅) "app"
    = (64 + 64 * 1024, None).
Proof. repeat split; vm_compute; reflexivity. Qed.

(** X18.  The Zig resolver agrees with [O + S * N] exactly when the
    product fits 16 bits (and the sum 64 bits). *)
Lemma getOffsetFromElf_spec (file : string) (h : Zig.Header) :
  Zig.Header_read file = Zig.Ok h →
  (Zig.shentsize h * Zig.shnum h < 2 ^ 16 →
   Zig.shoff h + Zig.shentsize h * Zig.shnum h < 2 ^ 64 →
   Zig.getOffsetFromElf file
   = Zig.Ok (Zig.shoff h + Zig.shentsize h * Zig.shnum h))
  ∧ (2 ^ 16 ≤ Zig.shentsize h * Zig.shnum h →
     Zig.getOffsetFromElf file = Zig.Panic "integer overflow").
Proof.
  intros Hread.
  assert (Hr : 0 ≤ Zig.shoff h ∧ 0 ≤ Zig.shentsize h ∧ 0 ≤ Zig.shnum h).
  { revert Hread. unfold Zig.Header_read.
    destruct (helpers.ReadFull file 0 64) as [b|]; [| done].
    repeat (case_match; try done); intros [= <-];
      cbn [Zig.shoff Zig.shentsize Zig.shnum]; repeat split;
      first [ apply (proj1 (uint_le_range _))
            | exact (proj1 (uint_be_acc_range _ 0 0 ltac:(lia) ltac:(done))) ]. }
  destruct Hr as (Ho & Hs & Hn).
  unfold Zig.getOffsetFromElf. rewrite Hread. simpl.
  unfold Zig.checked. split.
  - intros Hprod Hsum.
    assert (0 ≤ Zig.shentsize h * Zig.shnum h) by nia.
    rewrite (proj2 (andb_true_iff _ _)) by (split; lia). simpl.
    by rewrite (proj2 (andb_true_iff _ _)) by (split; lia).
  - intros Hprod.
    assert (Hf : (Zig.shentsize h * Zig.shnum h <? 2 ^ 16) = false) by lia.
    by rewrite Hf, andb_false_r.
Qed.

(** A type-1 file and an ELF file without the marker are detected as ELF
    kinds, and [GetOffset] returns an error for each instead of an
    offset. *)
Lemma GetOffset_rejects_type1_and_unknown :
  helpers.GetAppImageType (mkWorld {[ "app" := type1_file ]} ∅ ∅) "app"
    = Type1Elf
  ∧ helpers.GetOffset helpers.NewFile_ident
      (mkWorld {[ "app" := type1_file ]} ∅ ∅) "app"
    = (-1, Some helpers.ErrUnsupportedType)
  ∧ helpers.GetAppImageType (mkWorld {[ "app" := plain_elf_file ]} ∅ ∅) "app"
    = UnknownElf
  ∧ helpers.GetOffset helpers.NewFile_ident
      (mkWorld {[ "app" := plain_elf_file ]} ∅ ∅) "app"
    = (-1, Some helpers.ErrMissingMagic).
Proof. repeat split; vm_compute; reflexivity. Qed.

(** C2 (amended).  [GetOffset] computes an offset from the ELF header only
    for a type-2 file.  There an error of the ELF library is returned as it
    is; when the library accepts the file with the 64-bit or the 32-bit
    class, the result is [shoff + shentsize * shnum] of the header read in
    the byte order of the file, as an [int], and the sum itself when it is
    below [2^63].  With a library that accepts only the two classes, a file
    whose class byte is neither is answered with the library's error, not
    with offset 0, and every result without an error is the sum of a
    header of one of the two classes.  A type-1 file and an ELF file
    without the marker are rejected with an error, whatever the ELF library
    would say of them. *)
Theorem GetOffset_by_kind (NewFile : string → error + helpers.elf_File)
    (w : World) (src : string) :
  (helpers.GetAppImageType w src = Type1Elf →
   helpers.GetOffset NewFile w src = (-1, Some helpers.ErrUnsupportedType))
  ∧ (helpers.GetAppImageType w src = UnknownElf →
     helpers.GetOffset NewFile w src = (-1, Some helpers.ErrMissingMagic))
  ∧ (helpers.GetAppImageType w src = Type2Elf →
     ∀ f, os_Open w src = Some f →
       (∀ err, NewFile f = inl err →
          helpers.GetOffset NewFile w src = (-1, Some err))
       ∧ (∀ e hdr, NewFile f = inr e →
            (helpers.Class e = helpers.ELFCLASS64
             ∧ helpers.Read_Header64 f (helpers.FileByteOrder e) = Some hdr)
            ∨ (helpers.Class e = helpers.ELFCLASS32
               ∧ helpers.Read_Header32 f (helpers.FileByteOrder e) = Some hdr) →
            helpers.GetOffset NewFile w src
            = (wrap_int (helpers.Shoff hdr
                         + helpers.Shentsize hdr * helpers.Shnum hdr), None)
            ∧ (helpers.Shoff hdr + helpers.Shentsize hdr * helpers.Shnum hdr
                 < 2 ^ 63 →
               helpers.GetOffset NewFile w src
               = (helpers.Shoff hdr
                  + helpers.Shentsize hdr * helpers.Shnum hdr, None)))
       ∧ (reports_class NewFile →
          class_byte f ≠ helpers.ELFCLASS32 →
          class_byte f ≠ helpers.ELFCLASS64 →
          ∃ err, NewFile f = inl err
                 ∧ helpers.GetOffset NewFile w src = (-1, Some err))
       ∧ (reports_class NewFile →
          ∀ n, helpers.GetOffset NewFile w src = (n, None) →
            ∃ e hdr, NewFile f = inr e
              ∧ ((helpers.Class e = helpers.ELFCLASS64
                  ∧ helpers.Read_Header64 f (helpers.FileByteOrder e)
                    = Some hdr)
                 ∨ (helpers.Class e = helpers.ELFCLASS32
                    ∧ helpers.Read_Header32 f (helpers.FileByteOrder e)
                      = Some hdr))
              ∧ n = wrap_int (helpers.Shoff hdr
                              + helpers.Shentsize hdr * helpers.Shnum hdr))).
Proof.
  unfold Type1Elf, UnknownElf, Type2Elf. split; [| split].
  - unfold helpers.GetOffset. by intros ->.
  - unfold helpers.GetOffset. by intros ->.
  - intros Hkind f Hopen. rewrite GetOffset_type2 by done.
    unfold helpers.getElfSize. rewrite Hopen. split; [| split; [| split]].
    + intros err Hnew. by rewrite Hnew.
    + intros e hdr Hnew Hcase. rewrite Hnew.
      assert (Hrange : 0 ≤ helpers.Shoff hdr
                ∧ 0 ≤ helpers.Shentsize hdr < 2 ^ 16
                ∧ 0 ≤ helpers.Shnum hdr < 2 ^ 16).
      { destruct Hcase as [[_ Hread]|[_ Hread]].
        - pose proof (Read_Header64_ranges _ _ _ Hread). lia.
        - pose proof (Read_Header32_ranges _ _ _ Hread). lia. }
      assert (Hres : (if helpers.Class e =? helpers.ELFCLASS64
                      then match helpers.Read_Header64 f
                                   (helpers.FileByteOrder e) with
                           | Some hdr => (helpers.elf_size hdr, None)
                           | None => (-1, Some ErrUnexpectedEOF)
                           end
                      else if helpers.Class e =? helpers.ELFCLASS32
                      then match helpers.Read_Header32 f
                                   (helpers.FileByteOrder e) with
                           | Some hdr => (helpers.elf_size hdr, None)
                           | None => (-1, Some ErrUnexpectedEOF)
                           end
                      else (0, None))
                     = (helpers.elf_size hdr, None)).
      { destruct Hcase as [[-> ->]|[-> ->]]; done. }
      rewrite Hres. split.
      * by rewrite elf_size_sum.
      * intros Hsum. by rewrite elf_size_exact by lia.
    + intros Hlib H32 H64. destruct (NewFile f) as [err|e] eqn:Hnew.
      * by exists err.
      * destruct (Hlib f e Hnew) as [_ [?|?]]; contradiction.
    + intros Hlib n. destruct (NewFile f) as [err|e] eqn:Hnew; [done |].
      destruct (Hlib f e Hnew) as [Hclass [H32|H64]]; rewrite <- Hclass in *.
      * rewrite H32. change (helpers.ELFCLASS32 =? helpers.ELFCLASS64) with false.
        change (helpers.ELFCLASS32 =? helpers.ELFCLASS32) with true.
        destruct (helpers.Read_Header32 f _) as [hdr|] eqn:Hread; [| done].
        intros [= <-]. exists e, hdr. rewrite elf_size_sum. by auto.
      * rewrite H64. change (helpers.ELFCLASS64 =? helpers.ELFCLASS64) with true.
        destruct (helpers.Read_Header64 f _) as [hdr|] eqn:Hread; [| done].
        intros [= <-]. exists e, hdr. rewrite elf_size_sum. by auto.
Qed.

Lemma GetOffset_by_kind_witness :
  helpers.GetOffset helpers.NewFile_ident
    (mkWorld {[ "app" := type2_file ]} ∅ ∅) "app"
  = (64 + 64 * 30, None)
  ∧ ∃ err,
      helpers.NewFile_ident unknown_class_file = inl err
      ∧ helpers.GetOffset helpers.NewFile_ident
          (mkWorld {[ "app" := unknown_class_file ]} ∅ ∅) "app"
        = (-1, Some err).
Proof.
  split.
  - refine (proj2 (proj1 (proj2 (proj2 (proj2 (GetOffset_by_kind
      helpers.NewFile_ident
      (mkWorld {[ "app" := type2_file ]} ∅ ∅) "app")) _ type2_file _))
      (helpers.mkElfFile 2 LittleEndian)
      (default (helpers.mkHeader EmptyString 0 0 0 0 0 0 0 0 0 0 0 0 0)
         (helpers.Read_Header64 type2_file LittleEndian)) _ _) _);
      vm_compute; auto.
  - refine (proj1 (proj2 (proj2 (proj2 (proj2 (GetOffset_by_kind
      helpers.NewFile_ident
      (mkWorld {[ "app" := unknown_class_file ]} ∅ ∅) "app")) _
      unknown_class_file _))) NewFile_ident_reports_class _ _);
      vm_compute; (reflexivity || discriminate).
Defined.

(** The [default] branch of the class switch in [getElfSize]: a class
    other than the 32-bit and the 64-bit one gives offset 0 and no
    error. *)
Lemma getElfSize_other_class (NewFile : string → error + helpers.elf_File)
    (w : World) (src f : string) (e : helpers.elf_File) :
  os_Open w src = Some f → NewFile f = inr e →
  helpers.Class e ≠ helpers.ELFCLASS64 →
  helpers.Class e ≠ helpers.ELFCLASS32 →
  helpers.getElfSize NewFile w src = (0, None).
Proof.
  intros Hopen Hnew H64 H32. unfold helpers.getElfSize.
  rewrite Hopen, Hnew.
  destruct (Z.eqb_spec (helpers.Class e) helpers.ELFCLASS64); [done |].
  destruct (Z.eqb_spec (helpers.Class e) helpers.ELFCLASS32); done.
Qed.

(** ** Offset of a shappimage *)

Lemma Split_from_length (s : string) (sep : ascii) (cur : string) :
  length (helpers.Split_from s sep cur) = S (count_byte sep s).
Proof.
  revert cur. induction s as [|x s IH]; intros cur; simpl; [done |].
  destruct (Ascii.eqb x sep); simpl; by rewrite IH.
Qed.

Lemma Split_from_no_sep (s : string) (sep : ascii) (cur : string) :
  count_byte sep s = 0%nat → helpers.Split_from s sep cur = [cur ++ s].
Proof.
  revert cur. induction s as [|x s IH]; intros cur Hc; simpl in *.
  - f_equal. clear. induction cur as [|y cur IH]; [done |].
    rewrite app_cons. by f_equal.
  - destruct (Ascii.eqb x sep); [done |].
    rewrite IH by done. by rewrite string_app_assoc.
Qed.

Lemma is_offset_line_spec (text : string) :
  helpers.is_offset_line text = true ↔ offset_line text.
Proof.
  unfold helpers.is_offset_line, offset_line, helpers.strings_Split.
  rewrite Split_from_length, !andb_true_iff, Nat.ltb_lt, String.eqb_eq,
    Nat.eqb_eq.
  split.
  - intros [[Hlen Hpre] Hcount].
    destruct (substring_split 0 11 text) as (pre & v & Htext & Hnil);
      [done | rewrite Hpre; done |].
    destruct pre; [| done]. rewrite app_nil_l, Hpre in Htext.
    exists v. split; [done |]. rewrite Htext in Hcount.
    rewrite !app_cons, app_nil_l in Hcount. simpl in Hcount. lia.
  - intros (v & -> & Hv). repeat split.
    + rewrite string_length_app. simpl. lia.
    + apply (substring_take_app "sfs_offset=" v).
    + rewrite !app_cons, app_nil_l. simpl. lia.
Qed.

Lemma Split_from_sep (a b : string) (sep : ascii) (cur : string) :
  count_byte sep a = 0%nat →
  helpers.Split_from (a ++ String sep b) sep cur
  = (cur ++ a) :: helpers.Split_from b sep EmptyString.
Proof.
  revert cur. induction a as [|x a IH]; intros cur Hc.
  - rewrite app_nil_l. simpl. rewrite Ascii.eqb_refl. f_equal.
    clear. induction cur as [|y cur IH]; [done |].
    rewrite app_cons. by f_equal.
  - rewrite app_cons. simpl in *.
    destruct (Ascii.eqb x sep); [done |].
    rewrite IH by done. by rewrite string_app_assoc.
Qed.

Lemma ReplaceAll_unquote (v : string) :
  helpers.strings_ReplaceAll (helpers.strings_ReplaceAll v "'" EmptyString)
    "034" EmptyString
  = unquote v.
Proof.
  unfold unquote. induction v as [|c v IH]; [done |].
  cbn [helpers.strings_ReplaceAll list_ascii_of_string].
  rewrite filter_cons.
  destruct (Ascii.eqb_spec c "'") as [->|Hq].
  - rewrite app_nil_l, IH. by rewrite decide_False by (intros [? _]; done).
  - cbn [helpers.strings_ReplaceAll].
    destruct (Ascii.eqb_spec c "034") as [->|Hd].
    + rewrite app_nil_l, IH. by rewrite decide_False by (intros [_ ?]; done).
    + rewrite decide_True by done. cbn [string_of_list_ascii]. by rewrite IH.
Qed.

Lemma offset_of_line_spec (v : string) :
  count_byte "=" v = 0%nat →
  helpers.offset_of_line ("sfs_offset=" ++ v) = helpers.strconv_Atoi (unquote v).
Proof.
  intros Hv. unfold helpers.offset_of_line, helpers.strings_Split.
  change ("sfs_offset=" ++ v) with ("sfs_offset" ++ String "=" v).
  rewrite Split_from_sep by done. rewrite Split_from_no_sep by done.
  cbn [nth]. rewrite app_nil_l. by rewrite ReplaceAll_unquote.
Qed.

Lemma scan_for_offset_found (pre post : list string) (text : string) :
  Forall (λ l, ¬ offset_line l) pre → offset_line text →
  helpers.scan_for_offset (pre ++ text :: post) = helpers.offset_of_line text.
Proof.
  intros Hpre Htext. induction Hpre as [|l pre Hl _ IH]; simpl.
  - by rewrite (proj2 (is_offset_line_spec text)).
  - destruct (helpers.is_offset_line l) eqn:E; [| done].
    by apply is_offset_line_spec in E.
Qed.

Lemma scan_for_offset_missing (lines : list string) :
  Forall (λ l, ¬ offset_line l) lines →
  helpers.scan_for_offset lines = (-1, Some helpers.ErrNoSfsOffset).
Proof.
  induction 1 as [|l lines Hl _ IH]; simpl; [done |].
  destruct (helpers.is_offset_line l) eqn:E; [| done].
  by apply is_offset_line_spec in E.
Qed.

Lemma dec_value_mono (s : string) (acc : Z) :
  all_digits s → 0 ≤ acc → acc ≤ dec_value s acc.
Proof.
  revert acc. induction s as [|c s IH]; intros acc Hs Hacc; simpl; [lia |].
  destruct Hs as [Hc Hs]. unfold is_digit in Hc.
  etrans; [| apply IH; [done | lia]]. lia.
Qed.

Lemma ParseUint_loop_digits (s : string) (n : Z) :
  all_digits s → 0 ≤ n → dec_value s n < 2 ^ 63 →
  helpers.ParseUint_loop s n = (dec_value s n, None).
Proof.
  revert n. induction s as [|c s IH]; intros n Hs Hn Hv; [done |].
  destruct Hs as [Hc Hs]. unfold is_digit in Hc. simpl in Hv.
  pose proof (dec_value_mono s (n * 10 + (byte_val c - 48)) Hs ltac:(lia)).
  cbn [helpers.ParseUint_loop]. unfold helpers.digit_val.
  rewrite (proj2 (andb_true_iff _ _)) by (split; lia).
  unfold helpers.maxUint64.
  destruct (Z.leb_spec ((2 ^ 64 - 1) / 10 + 1) n) as [Hcut|_].
  { change ((2 ^ 64 - 1) / 10 + 1) with 1844674407370955162 in Hcut. lia. }
  cbv zeta.
  destruct (Z.ltb_spec (2 ^ 64 - 1) (n * 10 + (byte_val c - 48))); [lia |].
  apply IH; [done | lia | done].
Qed.

Lemma Atoi_digits (s : string) :
  s ≠ EmptyString → all_digits s → dec_value s 0 < 2 ^ 63 →
  helpers.strconv_Atoi s = (dec_value s 0, None).
Proof.
  intros Hne Hs Hv. unfold helpers.strconv_Atoi, helpers.ParseInt.
  destruct s as [|c s]; [done |].
  assert (Hc : is_digit c) by apply Hs. unfold is_digit in Hc.
  assert (Hplus : Ascii.eqb c "+" = false).
  { apply Ascii.eqb_neq. intros ->. vm_compute in Hc. destruct Hc as [Hc _]. by apply Hc. }
  assert (Hminus : Ascii.eqb c "-" = false).
  { apply Ascii.eqb_neq. intros ->. vm_compute in Hc. destruct Hc as [Hc _]. by apply Hc. }
  rewrite Hplus, Hminus. cbn [orb negb andb].
  unfold helpers.ParseUint. rewrite ParseUint_loop_digits by (done || lia).
  pose proof (dec_value_mono (String c s) 0 Hs ltac:(lia)).
  destruct (Z.leb_spec (2 ^ 63) (dec_value (String c s) 0)); [lia | done].
Qed.

(** A value written with the [0x] prefix is not a number for [Atoi]. *)
Lemma Atoi_hex (v : string) :
  helpers.strconv_Atoi ("0x" ++ v)
  = (0, Some (NumError "Atoi" ("0x" ++ v) ErrSyntax)).
Proof. reflexivity. Qed.

Lemma not_offset_line (l : string) :
  helpers.is_offset_line l = false → ¬ offset_line l.
Proof. intros E H. apply is_offset_line_spec in H. congruence. Qed.

Lemma GetOffset_shell (NewFile : string → error + helpers.elf_File)
    (w : World) (src f : string) :
  os_Open w src = Some f →
  helpers.GetAppImageType w src = ShellScript →
  helpers.GetOffset NewFile w src
  = helpers.scan_for_offset (helpers.Scanner_lines f).
Proof.
  intros Hopen Hkind. unfold helpers.GetOffset. rewrite Hkind. simpl.
  unfold helpers.getShappImageSize. by rewrite Hopen.
Qed.

(** A hexadecimal value is a parse error, not 4096, and an offset line
    beyond the 512th line is still found. *)
Lemma shappimage_hex_and_late_line :
  helpers.GetOffset helpers.NewFile_ident
    (mkWorld {[ "app" := hex_shimg ]} ∅ ∅) "app"
  = (0, Some (NumError "Atoi" "0x1000" ErrSyntax))
  ∧ helpers.Scanner_lines late_shimg !! 602%nat = Some "sfs_offset=4096"
  ∧ helpers.GetOffset helpers.NewFile_ident
      (mkWorld {[ "app" := late_shimg ]} ∅ ∅) "app"
    = (4096, None).
Proof. repeat split; vm_compute; reflexivity. Qed.

(** C3 (amended).  For a shappimage, the Go resolver goes through all the
    lines the scanner yields, with no bound on their number, and takes the
    first line that starts with [sfs_offset=] and has no second [=]; every
    single and double quote is removed from its value, and the value is
    parsed by [strconv.Atoi]: decimal digits give their number, a value with
    the [0x] prefix is a syntax error.  Without such a line the result is
    the not-found error. *)
Theorem GetOffset_shappimage (NewFile : string → error + helpers.elf_File)
    (w : World) (src f : string) :
  os_Open w src = Some f →
  helpers.GetAppImageType w src = ShellScript →
  (∀ (pre : list string) (v : string) (post : list string),
     helpers.Scanner_lines f = (pre ++ ("sfs_offset=" ++ v)%string :: post)%list →
     count_byte "=" v = 0%nat →
     Forall (λ l, ¬ offset_line l) pre →
     helpers.GetOffset NewFile w src = helpers.strconv_Atoi (unquote v))
  ∧ (Forall (λ l, ¬ offset_line l) (helpers.Scanner_lines f) →
     helpers.GetOffset NewFile w src = (-1, Some helpers.ErrNoSfsOffset))
  ∧ (∀ ds, ds ≠ EmptyString → all_digits ds → dec_value ds 0 < 2 ^ 63 →
     helpers.strconv_Atoi ds = (dec_value ds 0, None))
  ∧ (∀ v, helpers.strconv_Atoi ("0x" ++ v)
          = (0, Some (NumError "Atoi" ("0x" ++ v) ErrSyntax))).
Proof.
  intros Hopen Hkind. rewrite (GetOffset_shell NewFile w src f) by done.
  split; [| split; [| split]].
  - intros pre v post -> Hv Hpre.
    rewrite scan_for_offset_found; [by apply offset_of_line_spec | done |].
    by exists v.
  - apply scan_for_offset_missing.
  - apply Atoi_digits.
  - apply Atoi_hex.
Qed.

Lemma GetOffset_shappimage_witness :
  helpers.GetOffset helpers.NewFile_ident
    (mkWorld {[ "app" := quoted_shimg ]} ∅ ∅) "app"
  = (4096, None).
Proof.
  destruct (GetOffset_shappimage helpers.NewFile_ident
              (mkWorld {[ "app" := quoted_shimg ]} ∅ ∅) "app" quoted_shimg)
    as [Hfound _]; [vm_compute; reflexivity | vm_compute; reflexivity |].
  rewrite (Hfound ["#!/bin/sh"; "#.shImg.#"] "'4096'" ["exit 0"]).
  - vm_compute. reflexivity.
  - vm_compute. reflexivity.
  - reflexivity.
  - repeat constructor; apply not_offset_line; reflexivity.
Defined.

(** The Zig resolver on the same files: the quoted value is not stripped
    and does not parse, the hexadecimal value is 4096, and the scan gives up
    after 512 lines. *)
Lemma getOffsetFromShimg_examples :
  Zig.getOffsetFromShimg quoted_shimg = Zig.Err Zig.InvalidCharacter
  ∧ Zig.getOffsetFromShimg hex_shimg = Zig.Ok 4096
  ∧ Zig.getOffsetFromShimg late_shimg = Zig.Err Zig.NotShimg
  ∧ Zig.getOffsetFromShimg (line SHIMG_MAGIC ++ line "exit 0")
    = Zig.Err Zig.InvalidFormat.
Proof. repeat split; vm_compute; reflexivity. Qed.

(** ** File grants ([AddFiles]) *)

Lemma string_app_nil_r (s : string) : s ++ EmptyString = s.
Proof. induction s as [|c s IH]; [done |]. rewrite app_cons. by f_equal. Qed.

Lemma count_byte_app (c : ascii) (a b : string) :
  count_byte c (a ++ b) = (count_byte c a + count_byte c b)%nat.
Proof.
  induction a as [|x a IH]; [done |]. rewrite app_cons. simpl. rewrite IH. lia.
Qed.

Lemma suffix_substring (entry suf : string) :
  suf ≠ EmptyString →
  substring (String.length entry - String.length suf) (String.length suf) entry
    = suf
  ∧ (String.length suf ≤ String.length entry)%nat
  ↔ ∃ path, entry = path ++ suf.
Proof.
  intros Hsuf. split.
  - intros [Hsub Hlen].
    destruct (substring_split (String.length entry - String.length suf)
                (String.length suf) entry) as (pre & rest & Hentry & Hpre);
      [by destruct suf | by rewrite Hsub |].
    rewrite Hsub in Hentry. exists pre.
    assert (String.length rest = 0%nat) as Hrest.
    { apply (f_equal String.length) in Hentry.
      rewrite !string_length_app in Hentry. lia. }
    destruct rest; [| done]. by rewrite string_app_nil_r in Hentry.
  - intros [path ->]. rewrite string_length_app. split; [| lia].
    replace (String.length path + String.length suf - String.length suf)%nat
      with (String.length path) by lia.
    rewrite substring_skip_app.
    rewrite <- (string_app_nil_r suf) at 2. apply substring_take_app.
Qed.

Lemma needs_ro_spec (entry : string) :
  (3 ≤ String.length entry)%nat →
  aisap.needs_ro entry (substring (String.length entry - 3) 3 entry) = false
  ↔ has_mode entry.
Proof.
  intros Hlen. unfold aisap.needs_ro, has_mode, helpers.strings_Split.
  rewrite Split_from_length, orb_false_iff, andb_false_iff,
    !negb_false_iff, !String.eqb_eq, Nat.ltb_ge.
  pose proof (suffix_substring entry ":ro" ltac:(done)) as Hro.
  pose proof (suffix_substring entry ":rw" ltac:(done)) as Hrw.
  simpl String.length in Hro, Hrw. split.
  - intros [_ [H|H]].
    + destruct (proj1 Hro) as [path ->]; [done |]. exists path. by left.
    + destruct (proj1 Hrw) as [path ->]; [done |]. exists path. by right.
  - intros [path [->| ->]].
    + split; [rewrite count_byte_app; simpl; lia |].
      left. apply Hro. by exists path.
    + split; [rewrite count_byte_app; simpl; lia |].
      right. apply Hrw. by exists path.
Qed.

(** The loop of [AddFiles] from index [length front] on: entries of three
    bytes or more are rewritten one by one. *)
Lemma AddFiles_loop_long (front rest : list string) :
  Forall (λ e, (3 ≤ String.length e)%nat) rest →
  ∃ rest' : list string, aisap.AddFiles_loop (length rest) (length front) (front ++ rest)
           = aisap.Returned (front ++ rest')%list
           ∧ Forall2 grant_of rest rest'.
Proof.
  intros Hrest. revert front.
  induction Hrest as [|e rest He _ IH]; intros front.
  - exists []. by split.
  - cbn [length aisap.AddFiles_loop].
    rewrite list_lookup_middle by done.
    rewrite (proj2 (Nat.ltb_ge _ _)) by done.
    destruct (aisap.needs_ro e _) eqn:E.
    + rewrite insert_app_r_alt, Nat.sub_diag by done.
      cbn [insert list_insert].
      destruct (IH (app front [e ++ ":ro"])) as (rest' & Hloop & Hspec).
      rewrite length_app, Nat.add_1_r, <- !app_assoc in Hloop.
      cbn [app] in Hloop.
      exists ((e ++ ":ro") :: rest'). rewrite Hloop.
      split; [done |]. constructor; [| done]. right. split; [| done].
      intros Hm. apply needs_ro_spec in Hm; [congruence | done].
    + destruct (IH (app front [e])) as (rest' & Hloop & Hspec).
      rewrite length_app, Nat.add_1_r, <- !app_assoc in Hloop.
      cbn [app] in Hloop.
      exists (e :: rest'). rewrite Hloop.
      split; [done |]. constructor; [| done]. left. split; [| done].
      by apply needs_ro_spec.
Qed.

(** The loop panics as soon as an entry shorter than three bytes is
    left. *)
Lemma AddFiles_loop_short (front rest : list string) :
  Exists (λ e, (String.length e < 3)%nat) rest →
  aisap.AddFiles_loop (length rest) (length front) (front ++ rest)
  = aisap.Panicked aisap.slice_out_of_range.
Proof.
  revert front.
  induction rest as [|e rest IH]; intros front Hrest; [by inversion Hrest |].
  cbn [length aisap.AddFiles_loop].
  rewrite list_lookup_middle by done.
  destruct (Nat.ltb_spec (String.length e) 3) as [|Hlong]; [done |].
  assert (Hrest' : Exists (λ e, (String.length e < 3)%nat) rest).
  { inversion Hrest; subst; [lia | done]. }
  destruct (aisap.needs_ro e _).
  - rewrite insert_app_r_alt, Nat.sub_diag by done.
    cbn [insert list_insert].
    specialize (IH (app front [e ++ ":ro"]) Hrest').
    rewrite length_app, Nat.add_1_r, <- !app_assoc in IH. by cbn [app] in IH.
  - specialize (IH (app front [e]) Hrest').
    rewrite length_app, Nat.add_1_r, <- !app_assoc in IH. by cbn [app] in IH.
Qed.

(** For entries of three bytes or more, [AddFiles] keeps an entry that ends
    in [:ro] or [:rw], appends [:ro] to any other, and appends the results,
    in order and without removing duplicates, to the grants of the
    container. *)
Lemma AddFiles_grants (ai : aisap.AppImage) (s : list string)
    (p : aisap.Process) (l : nat) (perms : aisap.AppImagePerms) :
  aisap.Perms ai = Some l → aisap.heap p !! l = Some perms →
  Forall (λ e, (3 ≤ String.length e)%nat) s →
  ∃ s' : list string,
    aisap.AddFiles ai s p
    = aisap.Returned
        (s', aisap.mkProcess (aisap.vars p)
               (<[l := with_Files perms (aisap.Files perms ++ s')]>
                  (aisap.heap p)))
    ∧ Forall2 grant_of s s'.
Proof.
  intros Hai Hl Hs. destruct (AddFiles_loop_long [] s Hs) as (s' & Hloop & Hspec).
  exists s'. split; [| done]. unfold aisap.AddFiles, aisap.update_Perms.
  cbn [length app] in Hloop. by rewrite Hloop, Hai, Hl.
Qed.

(** C8.  [AddFiles] on the example of the design document gives
    [/tmp/a:ro] and [/tmp/b:rw]; on the one-byte entry [a], which has no
    mode suffix and should become [a:ro], the call panics on the slice of
    the last three bytes and grants nothing. *)
Theorem AddFiles_one_byte_entry :
  aisap.AddFiles app0 ["/tmp/a"; "/tmp/b:rw"] proc0
  = aisap.Returned
      (["/tmp/a:ro"; "/tmp/b:rw"],
       aisap.mkProcess aisap.pkg.init
         {[ 0%nat := aisap.mkPerms 1 ["/tmp/a:ro"; "/tmp/b:rw"] [] [] [] ]})
  ∧ grant_of "a" "a:ro"
  ∧ aisap.AddFiles app0 ["a"] proc0
    = aisap.Panicked aisap.slice_out_of_range.
Proof.
  split; [vm_compute; reflexivity | split; [| reflexivity]].
  right. split; [| done]. intros [path [H|H]];
    apply (f_equal String.length) in H; rewrite string_length_app in H;
    simpl in H; lia.
Qed.

(** C10.  [AddFiles] panics on the slice [s[i][len(s[i])-3:]] exactly when
    some entry of its argument is shorter than three bytes; it then neither
    returns nor reports an error. *)
Theorem AddFiles_short_entry_panics (ai : aisap.AppImage) (s : list string)
    (p : aisap.Process) :
  Exists (λ e, (String.length e < 3)%nat) s
  ↔ aisap.AddFiles ai s p = aisap.Panicked aisap.slice_out_of_range.
Proof.
  split.
  - intros Hs. unfold aisap.AddFiles.
    pose proof (AddFiles_loop_short [] s Hs) as Hloop.
    cbn [length app] in Hloop. by rewrite Hloop.
  - intros Hpanic.
    destruct (decide (Exists (λ e, (String.length e < 3)%nat) s)) as [|Hlong];
      [done |].
    apply not_Exists_Forall in Hlong; [| intros e; apply _].
    assert (Hlong' : Forall (λ e, (3 ≤ String.length e)%nat) s).
    { eapply Forall_impl; [exact Hlong |]. simpl. lia. }
    destruct (AddFiles_loop_long [] s Hlong') as (s' & Hloop & _).
    cbn [length app] in Hloop. unfold aisap.AddFiles in Hpanic.
    rewrite Hloop in Hpanic. unfold aisap.update_Perms in Hpanic.
    repeat case_match; simplify_eq.
Qed.

Lemma AddFiles_short_entry_panics_witness :
  aisap.AddFiles app0 ["/tmp/a"; "b"] proc0
  = aisap.Panicked aisap.slice_out_of_range.
Proof.
  apply (proj1 (AddFiles_short_entry_panics app0 ["/tmp/a"; "b"] proc0)).
  apply Exists_cons_tl, Exists_cons_hd. simpl. lia.
Defined.

(** ** Isolation level and identity ([SetLevel], [updateHome]) *)

(** At level 0 the home path of [root] becomes [/home/root], which is not
    the home directory of the account. *)
Lemma SetLevel_root_home :
  ∃ p', aisap.SetLevel root_account app0 0 proc0 = aisap.Returned (None, p')
        ∧ aisap.pkg.usern (aisap.vars p') = "root"
        ∧ aisap.pkg.homed (aisap.vars p') = "/home/root"
        ∧ aisap.pkg.homed (aisap.vars p') ≠ "/root".
Proof. eexists. split; [vm_compute; reflexivity |]. by repeat split. Qed.

(** C7 (amended).  With a resolvable account and a container that has its
    permission record, [SetLevel v] succeeds exactly for [0 <= v <= 3].  On
    success the level is stored, the user id is that of the process at all
    four levels, levels 0 and 1 give the user name of the account and the
    home path [/home/<user name>], levels 2 and 3 the user name [ai] and
    the home path [/home/ai].  Outside the range the error is returned, and
    the stored level, user name, home path and user id are unchanged. *)
Theorem SetLevel_spec (acct : aisap.Account) (usr : aisap.User)
    (ai : aisap.AppImage) (p : aisap.Process) (v : Z) (l : nat)
    (perms : aisap.AppImagePerms) :
  aisap.user_Current acct = Some usr →
  aisap.Perms ai = Some l → aisap.heap p !! l = Some perms →
  (0 ≤ v ≤ 3 →
   ∃ p', aisap.SetLevel acct ai v p = aisap.Returned (None, p')
     ∧ aisap.heap p' = <[l := with_Level perms v]> (aisap.heap p)
     ∧ aisap.pkg.uid (aisap.vars p') = strconv_Itoa (aisap.os_Getuid acct)
     ∧ (v = 0 ∨ v = 1 →
        aisap.pkg.usern (aisap.vars p') = aisap.Username usr
        ∧ aisap.pkg.homed (aisap.vars p')
          = filepath_Join "/home" (aisap.Username usr))
     ∧ (v = 2 ∨ v = 3 →
        aisap.pkg.usern (aisap.vars p') = "ai"
        ∧ aisap.pkg.homed (aisap.vars p') = "/home/ai"))
  ∧ (¬ 0 ≤ v ≤ 3 →
     ∃ p', aisap.SetLevel acct ai v p
           = aisap.Returned (Some aisap.ErrLevel, p')
       ∧ aisap.heap p' = aisap.heap p
       ∧ aisap.pkg.usern (aisap.vars p') = aisap.pkg.usern (aisap.vars p)
       ∧ aisap.pkg.homed (aisap.vars p') = aisap.pkg.homed (aisap.vars p)
       ∧ aisap.pkg.uid (aisap.vars p') = aisap.pkg.uid (aisap.vars p)).
Proof.
  intros Husr Hai Hl. split; intros Hv.
  - assert (Hcases : v = 0 ∨ v = 1 ∨ v = 2 ∨ v = 3) by lia.
    unfold aisap.SetLevel, aisap.updateHome, aisap.update_Perms.
    rewrite Husr, Hai.
    destruct Hcases as [->|[->|[->| ->]]]; cbn -[filepath_Join strconv_Itoa];
      rewrite Hl; eexists; (split; [reflexivity |]);
      cbn -[filepath_Join strconv_Itoa];
      (split; [reflexivity | split; [reflexivity |]]);
      split; intros [?|?]; try discriminate; by split.
  - unfold aisap.SetLevel, aisap.updateHome.
    destruct (Z.eqb_spec v 1); [lia |]. destruct (Z.eqb_spec v 0); [lia |].
    cbn [orb].
    destruct (Z.ltb_spec 1 v); destruct (Z.leb_spec v 3); try lia;
      cbn [andb]; eexists; by repeat split.
Qed.

Lemma SetLevel_spec_witness :
  ∃ p', aisap.SetLevel root_account app0 3 proc0 = aisap.Returned (None, p')
        ∧ aisap.pkg.usern (aisap.vars p') = "ai"
        ∧ aisap.pkg.homed (aisap.vars p') = "/home/ai"
        ∧ aisap.pkg.uid (aisap.vars p') = "0".
Proof.
  destruct (proj1 (SetLevel_spec root_account (aisap.mkUser "root" "/root")
              app0 proc0 3 0%nat (aisap.mkPerms 1 [] [] [] [])
              eq_refl eq_refl eq_refl) ltac:(lia))
    as (p' & Hret & _ & Huid & _ & Hai).
  exists p'. destruct (Hai (or_intror eq_refl)) as [Husern Hhomed].
  by repeat split.
Defined.

(** ** Ownership of the identity and directory overrides *)

(** Container B is set to level 1 and A then to level 3 and to the root
    directory [/fake]: the user name and home path in force, which B set to
    those of the account, are now the synthetic ones although B is still at
    level 1, and the root directory is [/fake] although no call on B set
    it. *)
Lemma setters_on_A_change_state_of_B :
  let p1 := returned_state (aisap.SetLevel root_account appB 1 proc2) in
  let p2 := returned_state (aisap.SetLevel root_account appA 3 p1) in
  let p3 := aisap.SetRootDir appA "/fake" p2 in
  aisap.pkg.usern (aisap.vars p1) = "root"
  ∧ aisap.pkg.homed (aisap.vars p1) = "/home/root"
  ∧ aisap.pkg.rootDir (aisap.vars p1) = "/"
  ∧ aisap.Level <$> aisap.heap p3 !! 1%nat = Some 1
  ∧ aisap.pkg.usern (aisap.vars p3) = "ai"
  ∧ aisap.pkg.homed (aisap.vars p3) = "/home/ai"
  ∧ aisap.pkg.rootDir (aisap.vars p3) = "/fake".
Proof. repeat split; vm_compute; reflexivity. Qed.

(** C9 (amended).  The user name, home path, user id and the root, temp and
    data directory overrides are variables of the package, shared by all
    containers of the process.  [SetRootDir], [SetTempDir] and [SetDataDir]
    assign them whatever the receiver is, a later call on another container
    replaces the value, and no field of a container changes.  [SetLevel]
    leaves the same package variables whatever the receiver is; only the
    level is stored per container, in its own permission record, and the
    records of the other containers are unchanged. *)
Theorem overrides_are_package_variables (acct : aisap.Account)
    (a b : aisap.AppImage) (d d' : string) (v : Z) (p : aisap.Process) :
  (aisap.SetRootDir a d p = aisap.SetRootDir b d p
   ∧ aisap.pkg.rootDir (aisap.vars (aisap.SetRootDir a d p)) = d
   ∧ aisap.SetRootDir b d' (aisap.SetRootDir a d p) = aisap.SetRootDir b d' p)
  ∧ (aisap.SetTempDir a d p = aisap.SetTempDir b d p
     ∧ aisap.pkg.tempDir (aisap.vars (aisap.SetTempDir a d p)) = d
     ∧ aisap.SetTempDir b d' (aisap.SetTempDir a d p) = aisap.SetTempDir b d' p)
  ∧ (aisap.SetDataDir a d p = aisap.SetDataDir b d p
     ∧ aisap.pkg.dataDir (aisap.vars (aisap.SetDataDir a d p)) = d
     ∧ aisap.SetDataDir b d' (aisap.SetDataDir a d p) = aisap.SetDataDir b d' p)
  ∧ (aisap.heap (aisap.SetRootDir a d p) = aisap.heap p
     ∧ aisap.heap (aisap.SetTempDir a d p) = aisap.heap p
     ∧ aisap.heap (aisap.SetDataDir a d p) = aisap.heap p)
  ∧ (∀ (la lb : nat) (pb : aisap.AppImagePerms) (e : option error)
       (p1 : aisap.Process),
       aisap.Perms a = Some la → aisap.Perms b = Some lb →
       aisap.heap p !! lb = Some pb →
       aisap.SetLevel acct a v p = aisap.Returned (e, p1) →
       (∃ p2, aisap.SetLevel acct b v p = aisap.Returned (e, p2)
              ∧ aisap.vars p2 = aisap.vars p1)
       ∧ (la ≠ lb → aisap.heap p1 !! lb = Some pb)).
Proof.
  do 4 (split; [done |]).
  intros la lb pb e p1 Ha Hb Hpb. unfold aisap.SetLevel, aisap.update_Perms,
    aisap.set_vars. rewrite Ha, Hb.
  destruct (aisap.updateHome acct v (aisap.vars p)) as [[[err|] vars']|];
    cbn [aisap.heap]; [| | done].
  - intros [= <- <-]. split; [by eexists | done].
  - rewrite Hpb. destruct (aisap.heap p !! la); [| done].
    intros [= <- <-]. split; [by eexists |].
    intros Hne. cbn [aisap.heap]. by rewrite lookup_insert_ne.
Qed.

Lemma overrides_are_package_variables_witness :
  (∃ p2, aisap.SetLevel root_account appB 3 proc2 = aisap.Returned (None, p2)
         ∧ aisap.vars p2
           = aisap.vars (returned_state (aisap.SetLevel root_account appA 3 proc2)))
  ∧ aisap.heap (returned_state (aisap.SetLevel root_account appA 3 proc2))
      !! 1%nat
    = Some (aisap.mkPerms 1 [] [] [] []).
Proof.
  destruct (proj2 (proj2 (proj2 (proj2
    (overrides_are_package_variables root_account appA appB EmptyString EmptyString 3 proc2))))
    0%nat 1%nat (aisap.mkPerms 1 [] [] [] []) None
    (returned_state (aisap.SetLevel root_account appA 3 proc2))
    eq_refl eq_refl eq_refl eq_refl) as [Hvars Hheap].
  split; [exact Hvars | by apply Hheap].
Defined.

(** ** Opening an AppImage ([NewAppImage]) *)

Lemma GetOffset_files (NewFile : string → error + helpers.elf_File)
    (w w' : World) (src : string) :
  files w = files w' →
  helpers.GetOffset NewFile w src = helpers.GetOffset NewFile w' src.
Proof.
  intros Hfiles.
  unfold helpers.GetOffset, helpers.GetAppImageType, helpers.getElfSize,
    helpers.getShappImageSize, os_Open.
  by rewrite Hfiles.
Qed.

Section OpenProperties.

Variable elf_NewFile : string → error + helpers.elf_File.
Variable acct : aisap.Account.
Variable now : Z.
Variable RandString : Z → Z → string.
Variable Mount : World → string → string → Z → option error * World.
Variable filepath_Glob : World → string → list string * option error.
Variable ini_Load : string → option aisap.ini_File.
Variable getPermsFromAppImage :
  World → aisap.AppImage → gmap nat aisap.AppImagePerms →
  option nat * gmap nat aisap.AppImagePerms.

Local Abbreviation scratch := (scratch_dir now RandString).
Local Abbreviation mnt := (mount_dir now RandString).
Local Abbreviation made := (with_dirs now RandString).
Local Abbreviation open :=
  (aisap.NewAppImage elf_NewFile acct now RandString Mount filepath_Glob
     ini_Load getPermsFromAppImage).

Lemma with_dirs_spec (w : World) :
  scratch ∉ denied w →
  scratch ∈ dirs (made w)
  ∧ (mnt ∉ denied w → mnt ∈ dirs (made w))
  ∧ dirs w ⊆ dirs (made w)
  ∧ files (made w) = files w.
Proof.
  intros Hok. unfold with_dirs, aisap.MakeTemp.
  fold (scratch_dir now RandString).
  rewrite (bool_decide_eq_false_2 _ Hok). cbn [snd denied].
  fold (mount_dir now RandString). destruct (bool_decide (mnt ∈ denied w)) eqn:E;
    cbn [snd dirs files].
  - apply bool_decide_eq_true in E.
    split; [| split; [| split]]; [set_solver.. | done].
  - split; [| split; [| split]]; [set_solver.. | done].
Qed.

Lemma NewAppImage_after_dirs (src : string) (p : aisap.Process) (w : World) :
  scratch ∉ denied w →
  open src p w
  = match helpers.GetOffset elf_NewFile w src with
    | (_, Some e) => aisap.Returned ((None, Some e), p, made w)
    | (off, None) =>
        match Mount (made w) src mnt off with
        | (Some e, w3) => aisap.Returned ((None, Some e), p, w3)
        | (None, w3) =>
            aisap.load_entry acct filepath_Glob ini_Load getPermsFromAppImage
              (aisap.set_Offset
                 (aisap.set_mountDir
                    (aisap.set_tempDir
                       (aisap.set_runId
                          (aisap.set_Path aisap.zero_AppImage src)
                          (RandString now 8))
                       scratch)
                    mnt)
                 off)
              p w3
        end
    end.
Proof.
  intros Hok.
  pose proof (with_dirs_spec w Hok) as (_ & _ & _ & Hfiles).
  rewrite (GetOffset_files elf_NewFile w (made w) src) by done.
  revert Hok. unfold aisap.NewAppImage, with_dirs, mount_dir, scratch_dir,
    aisap.MakeTemp.
  cbn -[filepath_Join helpers.GetOffset aisap.load_entry bool_decide].
  intros Hok. rewrite (bool_decide_eq_false_2 _ Hok).
  cbn -[filepath_Join helpers.GetOffset aisap.load_entry bool_decide].
  destruct (bool_decide _);
    cbn -[filepath_Join helpers.GetOffset aisap.load_entry bool_decide];
    destruct (helpers.GetOffset _ _ _) as [off [e|]]; done.
Qed.

(** C5 (amended).  When [NewAppImage] fails after it began to create its
    directories, it returns the error and removes nothing: after a failed
    offset resolution the filesystem is the one with the scratch directory
    (and the mount directory, when it could be made) still in it, and after
    a failed mount it is exactly what the mount left.  When the scratch
    directory itself cannot be made, the error is returned and nothing was
    created. *)
Theorem NewAppImage_error_keeps_dirs (src : string) (p : aisap.Process)
    (w : World) :
  (scratch ∈ denied w →
   open src p w
   = aisap.Returned ((None, Some (PathError "mkdir" scratch)), p, w))
  ∧ (scratch ∉ denied w →
     (∀ off e, helpers.GetOffset elf_NewFile w src = (off, Some e) →
        open src p w = aisap.Returned ((None, Some e), p, made w))
     ∧ (∀ off e w3, helpers.GetOffset elf_NewFile w src = (off, None) →
          Mount (made w) src mnt off = (Some e, w3) →
          open src p w = aisap.Returned ((None, Some e), p, w3))
     ∧ scratch ∈ dirs (made w)
     ∧ (mnt ∉ denied w → mnt ∈ dirs (made w))
     ∧ dirs w ⊆ dirs (made w)).
Proof.
  split.
  - intros Hdenied. unfold aisap.NewAppImage, aisap.MakeTemp.
    cbn [aisap.RunId aisap.runId aisap.set_runId].
    fold (scratch_dir now RandString).
    by rewrite (bool_decide_eq_true_2 _ Hdenied).
  - intros Hok. pose proof (with_dirs_spec w Hok) as (Hs & Hm & Hsub & _).
    split; [| split; [| done]].
    + intros off e Hoff. rewrite NewAppImage_after_dirs by done.
      by rewrite Hoff.
    + intros off e w3 Hoff Hmount. rewrite NewAppImage_after_dirs by done.
      by rewrite Hoff, Hmount.
Qed.

(** C6.  With an image that mounts and has no [.desktop] file in its root,
    the Go [NewAppImage] panics on [fp[0]]; the Zig [loadDesktopEntry]
    returns 0 and no error, whatever the root holds, when no name has the
    extension. *)
Theorem no_desktop_entry (src : string) (p : aisap.Process) (w w3 : World)
    (off : Z) (openFile : string → Zig.Result string) (names : list string)
    (buf : string) :
  scratch ∉ denied w →
  helpers.GetOffset elf_NewFile w src = (off, None) →
  Mount (made w) src mnt off = (None, w3) →
  filepath_Glob w3 (mnt ++ "/*.desktop") = ([], None) →
  Forall (λ name, Zig.extension name ≠ ".desktop") names →
  open src p w = aisap.Panicked aisap.index_out_of_range
  ∧ Zig.loadDesktopEntry openFile names buf = Zig.Ok 0.
Proof.
  intros Hok Hoff Hmount Hglob Hnames. split.
  - rewrite NewAppImage_after_dirs by done. rewrite Hoff, Hmount.
    unfold aisap.load_entry. cbn [aisap.mountDir aisap.set_Offset aisap.set_mountDir].
    by rewrite Hglob.
  - unfold Zig.loadDesktopEntry.
    assert (Hloop : ∀ found, Zig.entry_loop openFile names found buf
                             = Zig.Ok (found, buf)).
    { induction Hnames as [|name names Hname _ IH]; intros found; [done |].
      cbn [Zig.entry_loop].
      destruct (String.eqb_spec (Zig.extension name) ".desktop"); [done |].
      apply IH. }
    by rewrite Hloop.
Qed.

End OpenProperties.

(** [NewAppImage] on a file that is no AppImage returns the error of the
    detection, and the scratch directory and the mount directory it made
    are on disk afterwards. *)
Lemma NewAppImage_leaves_dirs_behind :
  ∃ w', open_here "/app" proc0 (disk "not an AppImage")
        = aisap.Returned ((None, Some helpers.ErrNoType), proc0, w')
        ∧ "/tmp/.aisapTemp_abcdefgh" ∈ dirs w'
        ∧ "/tmp/.aisapTemp_abcdefgh/.mount_abcdefgh" ∈ dirs w'
        ∧ "/tmp/.aisapTemp_abcdefgh" ∉ dirs (disk "not an AppImage").
Proof.
  eexists. split; [vm_compute; reflexivity |].
  cbn [dirs]. split; [| split]; set_solver.
Qed.

Lemma NewAppImage_error_keeps_dirs_witness :
  open_here "/app" proc0 (disk "not an AppImage")
  = aisap.Returned
      ((None, Some helpers.ErrNoType), proc0,
       with_dirs 0 (λ _ _, "abcdefgh") (disk "not an AppImage")).
Proof.
  refine (proj1 (proj2 (NewAppImage_error_keeps_dirs helpers.NewFile_ident
            root_account 0 (λ _ _, "abcdefgh") (λ w _ _ _, (None, w))
            (λ _ _, ([], None)) (λ _, None) (λ _ _ h, (None, h))
            "/app" proc0 (disk "not an AppImage")) _) (-1) _ _).
  - cbn [denied disk]. set_solver.
  - vm_compute. reflexivity.
Defined.

Lemma no_desktop_entry_witness :
  open_here "/app" proc0 (disk type2_file)
  = aisap.Panicked aisap.index_out_of_range
  ∧ Zig.loadDesktopEntry (λ _, Zig.Err Zig.EndOfStream)
      ["AppRun"; ".DirIcon"; "usr"] EmptyString = Zig.Ok 0.
Proof.
  refine (no_desktop_entry helpers.NewFile_ident root_account 0
            (λ _ _, "abcdefgh") (λ w _ _ _, (None, w)) (λ _ _, ([], None))
            (λ _, None) (λ _ _ h, (None, h)) "/app" proc0 (disk type2_file)
            _ (64 + 64 * 30) _ _ _ _ _ _ _ _).
  - cbn [denied disk]. set_solver.
  - vm_compute. reflexivity.
  - reflexivity.
  - reflexivity.
  - repeat constructor; vm_compute; discriminate.
Defined.


(** * Further properties of the Go package [helpers] *)

(** X1.  [HasMagic] is true exactly when the bytes of a non-empty magic
    stand in the file from the offset on; on a file that ends before
    [offset + len(str)] it is false. *)
Theorem HasMagic_correct (f str : string) (off : nat) :
  str ≠ EmptyString →
  (helpers.HasMagic f str off = true ↔ bytes_at off str f)
  ∧ ((String.length f < off + String.length str)%nat →
     helpers.HasMagic f str off = false).
Proof.
  intros Hstr. split; [by apply HasMagic_spec |].
  intros Hshort. apply not_true_is_false. intros Htrue.
  apply HasMagic_spec in Htrue; [| done].
  apply bytes_at_length in Htrue. lia.
Qed.

Lemma HasMagic_correct_witness :
  helpers.HasMagic type2_file AI_TYPE2 8 = true ↔ bytes_at 8 AI_TYPE2 type2_file.
Proof.
  apply (proj1 (HasMagic_correct type2_file AI_TYPE2 8 ltac:(discriminate))).
Defined.

(** X2.  On a type-2 file that the ELF library reports as 32-bit, the Go
    resolver returns exactly [shoff + shentsize * shnum] of the 32-bit
    header, with no condition on the size of the file: the sum of a 32-bit
    and two 16-bit fields cannot leave the range of [int]. *)
Theorem GetOffset_elf32_exact (NewFile : string → error + helpers.elf_File)
    (w : World) (src f : string) (e : helpers.elf_File) (hdr : helpers.Header) :
  os_Open w src = Some f →
  helpers.GetAppImageType w src = Type2Elf →
  NewFile f = inr e →
  helpers.Class e = helpers.ELFCLASS32 →
  helpers.Read_Header32 f (helpers.FileByteOrder e) = Some hdr →
  helpers.GetOffset NewFile w src
  = (helpers.Shoff hdr + helpers.Shentsize hdr * helpers.Shnum hdr, None)
  ∧ 0 ≤ helpers.Shoff hdr + helpers.Shentsize hdr * helpers.Shnum hdr < 2 ^ 33.
Proof.
  intros Hopen Hkind Hnew Hclass Hread.
  destruct (Read_Header32_ranges _ _ _ Hread) as (Ho & Hs & Hn).
  assert (0 ≤ helpers.Shentsize hdr * helpers.Shnum hdr < 2 ^ 32) by nia.
  split; [| lia].
  rewrite GetOffset_type2 by done. unfold helpers.getElfSize.
  rewrite Hopen, Hnew, Hclass, Hread. simpl.
  rewrite elf_size_exact; [done | lia..].
Qed.

Lemma GetOffset_elf32_exact_witness :
  helpers.GetOffset helpers.NewFile_ident
    (mkWorld {[ "app" := elf32_file ]} ∅ ∅) "app"
  = (52 + 40 * 30, None).
Proof.
  refine (proj1 (GetOffset_elf32_exact helpers.NewFile_ident
    (mkWorld {[ "app" := elf32_file ]} ∅ ∅) "app" elf32_file
    (helpers.mkElfFile 1 LittleEndian)
    (default (helpers.mkHeader EmptyString 0 0 0 0 0 0 0 0 0 0 0 0 0)
       (helpers.Read_Header32 elf32_file LittleEndian)) _ _ _ _ _));
    vm_compute; reflexivity.
Defined.

Lemma GetOffset_elf64_exact_witness :
  helpers.GetOffset helpers.NewFile_ident
    (mkWorld {[ "app" := type2_file ]} ∅ ∅) "app"
  = (64 + 64 * 30, None).
Proof.
  refine (GetOffset_elf64_exact helpers.NewFile_ident
    (mkWorld {[ "app" := type2_file ]} ∅ ∅) "app" type2_file
    (helpers.mkElfFile 2 LittleEndian)
    (default (helpers.mkHeader EmptyString 0 0 0 0 0 0 0 0 0 0 0 0 0)
       (helpers.Read_Header64 type2_file LittleEndian)) _ _ _ _ _ _ _);
    vm_compute; try reflexivity; discriminate.
Defined.

(** X5.  [GetOffset] returns an offset only for a type-2 ELF and for a
    shappimage: whenever it returns no error, [Type] of the container is 2
    or -2, and for every other value of [Type] (type 1, unknown ELF, no
    AppImage, unreadable file) it returns -1 with an error. *)
Theorem GetOffset_only_type2_and_shell
    (NewFile : string → error + helpers.elf_File) (ai : aisap.AppImage)
    (w : World) :
  (∀ n, helpers.GetOffset NewFile w (aisap.Path ai) = (n, None) →
     aisap.Type_ ai w = 2 ∨ aisap.Type_ ai w = -2)
  ∧ (aisap.Type_ ai w ≠ 2 → aisap.Type_ ai w ≠ -2 →
     ∃ e, helpers.GetOffset NewFile w (aisap.Path ai) = (-1, Some e)).
Proof.
  unfold aisap.Type_, helpers.GetOffset.
  destruct (helpers.GetAppImageType w (aisap.Path ai)) as [format [err|]];
    cbn [fst].
  - split; [done | by eexists].
  - destruct (Z.eqb_spec format (-2)) as [->|Hs]; [split; [by right | done] |].
    destruct (Z.eqb_spec format 2) as [->|H2]; [split; [by left | done] |].
    split; [by destruct (format =? 0) | destruct (format =? 0); by eexists].
Qed.

Lemma GetOffset_only_type2_and_shell_witness :
  ∃ e, helpers.GetOffset helpers.NewFile_ident
         (mkWorld {[ "app" := type1_file ]} ∅ ∅) "app" = (-1, Some e).
Proof.
  apply (proj2 (GetOffset_only_type2_and_shell helpers.NewFile_ident
                  (aisap.set_Path aisap.zero_AppImage "app")
                  (mkWorld {[ "app" := type1_file ]} ∅ ∅)));
    vm_compute; discriminate.
Defined.

Lemma digits_no_byte (ds : string) (c : ascii) :
  all_digits ds → ¬ is_digit c → count_byte c ds = 0%nat.
Proof.
  intros Hds Hc. induction ds as [|d ds IH]; [done |].
  destruct Hds as [Hd Hds]. simpl.
  destruct (Ascii.eqb_spec d c) as [->|_]; [done |]. by apply IH.
Qed.

Lemma digits_unquote (ds : string) : all_digits ds → unquote ds = ds.
Proof.
  unfold unquote. intros Hds. induction ds as [|d ds IH]; [done |].
  destruct Hds as [Hd Hds]. cbn [list_ascii_of_string].
  rewrite filter_cons, decide_True.
  - cbn [string_of_list_ascii]. by rewrite IH.
  - split; intros ->; vm_compute in Hd; destruct Hd as [Hd _]; by apply Hd.
Qed.

Lemma Atoi_negative (ds : string) :
  ds ≠ EmptyString → all_digits ds → dec_value ds 0 < 2 ^ 63 →
  helpers.strconv_Atoi (String "-" ds) = (- dec_value ds 0, None).
Proof.
  intros Hne Hds Hv. unfold helpers.strconv_Atoi, helpers.ParseInt.
  cbn [Ascii.eqb Bool.eqb orb negb andb].
  unfold helpers.ParseUint. destruct ds as [|d ds]; [done |].
  rewrite ParseUint_loop_digits by (done || lia).
  destruct (Z.ltb_spec (2 ^ 63) (dec_value (String d ds) 0)); [lia | done].
Qed.

(** X6.  The Go resolver accepts a negative value: a first offset line
    [sfs_offset=-<digits>] gives the negative number, with no error. *)
Theorem GetOffset_negative_value
    (NewFile : string → error + helpers.elf_File) (w : World)
    (src f ds : string) (pre post : list string) :
  os_Open w src = Some f →
  helpers.GetAppImageType w src = ShellScript →
  helpers.Scanner_lines f = (pre ++ ("sfs_offset=-" ++ ds)%string :: post)%list →
  Forall (λ l, ¬ offset_line l) pre →
  ds ≠ EmptyString → all_digits ds → dec_value ds 0 < 2 ^ 63 →
  helpers.GetOffset NewFile w src = (- dec_value ds 0, None)
  ∧ - dec_value ds 0 ≤ 0.
Proof.
  intros Hopen Hkind Hlines Hpre Hne Hds Hv.
  pose proof (dec_value_mono ds 0 Hds ltac:(lia)). split; [| lia].
  rewrite (GetOffset_shell NewFile w src f) by done. rewrite Hlines.
  change ("sfs_offset=-" ++ ds) with ("sfs_offset=" ++ String "-" ds).
  assert (Hcount : count_byte "=" (String "-" ds) = 0%nat).
  { simpl. apply digits_no_byte; [done |]. vm_compute. intros [_ H2]. by apply H2. }
  rewrite scan_for_offset_found; [| done | by eexists].
  rewrite offset_of_line_spec by done.
  assert (Hq : unquote (String "-" ds) = String "-" ds).
  { unfold unquote. cbn [list_ascii_of_string]. rewrite filter_cons, decide_True by done.
    cbn [string_of_list_ascii]. f_equal. by apply digits_unquote. }
  rewrite Hq. by apply Atoi_negative.
Qed.

Lemma GetOffset_negative_value_witness :
  helpers.GetOffset helpers.NewFile_ident
    (mkWorld {[ "app" := negative_shimg ]} ∅ ∅) "app"
  = (- 512, None).
Proof.
  refine (proj1 (GetOffset_negative_value helpers.NewFile_ident
    (mkWorld {[ "app" := negative_shimg ]} ∅ ∅) "app" negative_shimg "512"
    ["#!/bin/sh"; "#.shImg.#"] ["exit 0"] _ _ _ _ _ _ _)).
  - vm_compute. reflexivity.
  - vm_compute. reflexivity.
  - vm_compute. reflexivity.
  - repeat constructor; apply not_offset_line; reflexivity.
  - discriminate.
  - vm_compute. intuition discriminate.
  - vm_compute. reflexivity.
Defined.

(** * Further properties of the Go package [aisap] *)

Lemma has_mode_length (e : string) : has_mode e → (3 ≤ String.length e)%nat.
Proof.
  intros [path [->| ->]]; rewrite string_length_app; simpl; lia.
Qed.

Lemma grant_of_has_mode (e g : string) : grant_of e g → has_mode g.
Proof.
  intros [[Hm ->]|[_ ->]]; [done |]. exists e. by left.
Qed.

Lemma grant_of_fun (e g1 g2 : string) : grant_of e g1 → grant_of e g2 → g1 = g2.
Proof. intros [[? ->]|[? ->]] [[? ->]|[? ->]]; done. Qed.

Lemma Forall2_grant_of_fun (s r1 r2 : list string) :
  Forall2 grant_of s r1 → Forall2 grant_of s r2 → r1 = r2.
Proof.
  intros H1. revert r2. induction H1 as [|e g s r Hg _ IH]; intros r2 H2.
  - by inversion H2.
  - inversion H2 as [|? g' ? r' Hg' Hr']; subst. f_equal.
    + by eapply grant_of_fun.
    + by apply IH.
Qed.

Lemma Forall2_grant_of_fixed (s : list string) :
  Forall has_mode s → Forall2 grant_of s s.
Proof. induction 1; constructor; [by left | done]. Qed.

(** The result of the loop of [AddFiles] is fixed by [grant_of]. *)
Lemma AddFiles_loop_result (s r : list string) :
  Forall (λ e, (3 ≤ String.length e)%nat) s → Forall2 grant_of s r →
  aisap.AddFiles_loop (length s) 0 s = aisap.Returned r.
Proof.
  intros Hs Hr. destruct (AddFiles_loop_long [] s Hs) as (r' & Hloop & Hr').
  cbn [length app] in Hloop. rewrite Hloop. f_equal.
  by eapply Forall2_grant_of_fun.
Qed.

Lemma AddFiles_result (ai : aisap.AppImage) (s r : list string)
    (p : aisap.Process) (l : nat) (perms : aisap.AppImagePerms) :
  aisap.Perms ai = Some l → aisap.heap p !! l = Some perms →
  Forall (λ e, (3 ≤ String.length e)%nat) s → Forall2 grant_of s r →
  aisap.AddFiles ai s p
  = aisap.Returned
      (r, with_record p l (with_Files perms (aisap.Files perms ++ r))).
Proof.
  intros Hai Hl Hs Hr. unfold aisap.AddFiles, aisap.update_Perms.
  by rewrite (AddFiles_loop_result s r), Hai, Hl.
Qed.

(** X7.  Every entry that [AddFiles] appends ends in [:ro] or [:rw], and
    the rewriting is idempotent: the slice it leaves to the caller, given to
    [AddFiles] again, is left as it is, and is appended a second time.
    (For entries of three bytes or more.) *)
Theorem AddFiles_modes (ai : aisap.AppImage) (s : list string)
    (p : aisap.Process) (l : nat) (perms : aisap.AppImagePerms) :
  aisap.Perms ai = Some l → aisap.heap p !! l = Some perms →
  Forall (λ e, (3 ≤ String.length e)%nat) s →
  ∃ (s' : list string) (p' : aisap.Process),
    aisap.AddFiles ai s p = aisap.Returned (s', p')
    ∧ length s' = length s
    ∧ Forall has_mode s'
    ∧ aisap.AddFiles ai s' p'
      = aisap.Returned
          (s', with_record p l
                 (with_Files perms ((aisap.Files perms ++ s') ++ s'))).
Proof.
  intros Hai Hl Hs.
  destruct (AddFiles_loop_long [] s Hs) as (s' & _ & Hspec).
  assert (Hmodes : Forall has_mode s').
  { clear -Hspec. induction Hspec; constructor; [by eapply grant_of_has_mode | done]. }
  eexists s', _. split; [by apply AddFiles_result |].
  split; [symmetry; by eapply Forall2_length |]. split; [done |].
  erewrite AddFiles_result;
    [| done | apply lookup_insert_eq
     | eapply Forall_impl; [exact Hmodes | apply has_mode_length]
     | by apply Forall2_grant_of_fixed].
  unfold with_record. cbn [aisap.vars aisap.heap with_Files aisap.Files
    aisap.Level aisap.Devices aisap.Sockets aisap.Share].
  by rewrite insert_insert_eq.
Qed.

Lemma AddFiles_modes_witness :
  ∃ (s' : list string) (p' : aisap.Process),
    aisap.AddFiles app0 ["/tmp/a"; "/tmp/b:rw"] proc0 = aisap.Returned (s', p')
    ∧ length s' = 2%nat ∧ Forall has_mode s'.
Proof.
  destruct (AddFiles_modes app0 ["/tmp/a"; "/tmp/b:rw"] proc0 0%nat
              (aisap.mkPerms 1 [] [] [] []) eq_refl eq_refl)
    as (s' & p' & Hret & Hlen & Hmodes & _).
  - repeat constructor; simpl; lia.
  - by exists s', p'.
Defined.

(** X8.  Two calls of [AddFiles] in a row grant what one call with the
    two lists joined grants.  (For entries of three bytes or more.) *)
Theorem AddFiles_app (ai : aisap.AppImage) (s1 s2 : list string)
    (p : aisap.Process) (l : nat) (perms : aisap.AppImagePerms) :
  aisap.Perms ai = Some l → aisap.heap p !! l = Some perms →
  Forall (λ e, (3 ≤ String.length e)%nat) s1 →
  Forall (λ e, (3 ≤ String.length e)%nat) s2 →
  ∃ (r1 r2 : list string) (p1 p2 : aisap.Process),
    aisap.AddFiles ai s1 p = aisap.Returned (r1, p1)
    ∧ aisap.AddFiles ai s2 p1 = aisap.Returned (r2, p2)
    ∧ aisap.AddFiles ai (s1 ++ s2) p = aisap.Returned ((r1 ++ r2)%list, p2).
Proof.
  intros Hai Hl Hs1 Hs2.
  destruct (AddFiles_loop_long [] s1 Hs1) as (r1 & _ & Hr1).
  destruct (AddFiles_loop_long [] s2 Hs2) as (r2 & _ & Hr2).
  eexists r1, r2, _, _. split; [by apply AddFiles_result |].
  split; [by apply AddFiles_result; [| apply lookup_insert_eq | |] |].
  erewrite AddFiles_result;
    [| done | done | by apply Forall_app | by apply Forall2_app].
  unfold with_record. cbn [aisap.vars aisap.heap with_Files aisap.Files
    aisap.Level aisap.Devices aisap.Sockets aisap.Share].
  by rewrite insert_insert_eq, (assoc_L (++)).
Qed.

Lemma AddFiles_app_witness :
  ∃ (r1 r2 : list string) (p1 p2 : aisap.Process),
    aisap.AddFiles app0 ["/tmp/a"] proc0 = aisap.Returned (r1, p1)
    ∧ aisap.AddFiles app0 ["/tmp/b:rw"] p1 = aisap.Returned (r2, p2)
    ∧ aisap.AddFiles app0 ["/tmp/a"; "/tmp/b:rw"] proc0
      = aisap.Returned ((r1 ++ r2)%list, p2).
Proof.
  apply (AddFiles_app app0 ["/tmp/a"] ["/tmp/b:rw"] proc0 0%nat
           (aisap.mkPerms 1 [] [] [] []) eq_refl eq_refl);
    repeat constructor; simpl; lia.
Defined.

Lemma update_Perms_ok (ai : aisap.AppImage) (p : aisap.Process) (l : nat)
    (perms : aisap.AppImagePerms) (g : aisap.AppImagePerms → aisap.AppImagePerms) :
  aisap.Perms ai = Some l → aisap.heap p !! l = Some perms →
  aisap.update_Perms ai p g = aisap.Returned (with_record p l (g perms)).
Proof. intros Hai Hl. unfold aisap.update_Perms. by rewrite Hai, Hl. Qed.

(** X9.  [AddDevices], [AddSockets] and [AddShare] only append to their
    own list of the container's record, and calls on different lists can be
    made in either order: the resulting state is the same. *)
Theorem grants_commute (ai : aisap.AppImage) (d k h : list string)
    (p : aisap.Process) (l : nat) (perms : aisap.AppImagePerms) :
  aisap.Perms ai = Some l → aisap.heap p !! l = Some perms →
  ∃ pd pk ph pdk pkh pdh,
    aisap.AddDevices ai d p = aisap.Returned pd
    ∧ aisap.AddSockets ai k p = aisap.Returned pk
    ∧ aisap.AddShare ai h p = aisap.Returned ph
    ∧ aisap.heap pd
      = <[l := with_Devices perms (aisap.Devices perms ++ d)]> (aisap.heap p)
    ∧ aisap.heap pk
      = <[l := with_Sockets perms (aisap.Sockets perms ++ k)]> (aisap.heap p)
    ∧ aisap.heap ph
      = <[l := with_Share perms (aisap.Share perms ++ h)]> (aisap.heap p)
    ∧ aisap.AddSockets ai k pd = aisap.Returned pdk
    ∧ aisap.AddDevices ai d pk = aisap.Returned pdk
    ∧ aisap.AddShare ai h pk = aisap.Returned pkh
    ∧ aisap.AddSockets ai k ph = aisap.Returned pkh
    ∧ aisap.AddShare ai h pd = aisap.Returned pdh
    ∧ aisap.AddDevices ai d ph = aisap.Returned pdh.
Proof.
  intros Hai Hl. unfold aisap.AddDevices, aisap.AddSockets, aisap.AddShare.
  exists (with_record p l (with_Devices perms (aisap.Devices perms ++ d))),
    (with_record p l (with_Sockets perms (aisap.Sockets perms ++ k))),
    (with_record p l (with_Share perms (aisap.Share perms ++ h))),
    (with_record p l
       (aisap.mkPerms (aisap.Level perms) (aisap.Files perms)
          (aisap.Devices perms ++ d) (aisap.Sockets perms ++ k)
          (aisap.Share perms))),
    (with_record p l
       (aisap.mkPerms (aisap.Level perms) (aisap.Files perms)
          (aisap.Devices perms) (aisap.Sockets perms ++ k)
          (aisap.Share perms ++ h))),
    (with_record p l
       (aisap.mkPerms (aisap.Level perms) (aisap.Files perms)
          (aisap.Devices perms ++ d) (aisap.Sockets perms)
          (aisap.Share perms ++ h))).
  rewrite !(update_Perms_ok ai p l perms) by done.
  do 6 (split; [reflexivity |]).
  repeat split;
    (erewrite update_Perms_ok; [| done | apply lookup_insert_eq]);
    unfold with_record; cbn; by rewrite insert_insert_eq.
Qed.

Lemma grants_commute_witness :
  ∃ pd pk pdk,
    aisap.AddDevices app0 ["dri"] proc0 = aisap.Returned pd
    ∧ aisap.AddSockets app0 ["x11"] proc0 = aisap.Returned pk
    ∧ aisap.AddSockets app0 ["x11"] pd = aisap.Returned pdk
    ∧ aisap.AddDevices app0 ["dri"] pk = aisap.Returned pdk.
Proof.
  destruct (grants_commute app0 ["dri"] ["x11"] [] proc0 0%nat
              (aisap.mkPerms 1 [] [] [] []) eq_refl eq_refl)
    as (pd & pk & ph & pdk & pkh & pdh & H1 & H2 & _ & _ & _ & _ & H3 & H4 & _).
  by exists pd, pk, pdk.
Defined.

(** What a successful [SetLevel] returns. *)
Lemma SetLevel_ok (acct : aisap.Account) (ai : aisap.AppImage)
    (p : aisap.Process) (v : Z) (l : nat) (perms : aisap.AppImagePerms)
    (name : string) :
  aisap.Perms ai = Some l → aisap.heap p !! l = Some perms →
  (v = 0 ∨ v = 1) ∧ (aisap.Username <$> aisap.user_Current acct) = Some name
  ∨ (v = 2 ∨ v = 3) ∧ name = "ai" →
  aisap.SetLevel acct ai v p
  = aisap.Returned
      (None, aisap.mkProcess (identity_at acct name (aisap.vars p))
               (<[l := with_Level perms v]> (aisap.heap p))).
Proof.
  intros Hai Hl Hv. unfold aisap.SetLevel, aisap.updateHome, aisap.update_Perms.
  rewrite Hai.
  destruct Hv as [[Hv Hname]|[Hv ->]].
  - destruct (aisap.user_Current acct) as [usr|]; [| done].
    injection Hname as <-.
    destruct Hv as [-> | ->]; cbn -[filepath_Join strconv_Itoa]; by rewrite Hl.
  - destruct Hv as [-> | ->]; cbn -[filepath_Join strconv_Itoa]; by rewrite Hl.
Qed.

(** X10.  Of two successful calls of [SetLevel] in a row only the second
    counts: the state is the one that the second call alone gives. *)
Theorem SetLevel_last_wins (acct : aisap.Account) (usr : aisap.User)
    (ai : aisap.AppImage) (p : aisap.Process) (v1 v2 : Z) (l : nat)
    (perms : aisap.AppImagePerms) :
  aisap.user_Current acct = Some usr →
  aisap.Perms ai = Some l → aisap.heap p !! l = Some perms →
  0 ≤ v1 ≤ 3 → 0 ≤ v2 ≤ 3 →
  ∃ p1 p2,
    aisap.SetLevel acct ai v1 p = aisap.Returned (None, p1)
    ∧ aisap.SetLevel acct ai v2 p1 = aisap.Returned (None, p2)
    ∧ aisap.SetLevel acct ai v2 p = aisap.Returned (None, p2).
Proof.
  intros Husr Hai Hl Hv1 Hv2.
  assert (Hname : ∀ v, 0 ≤ v ≤ 3 → ∃ name,
            (v = 0 ∨ v = 1)
            ∧ (aisap.Username <$> aisap.user_Current acct) = Some name
            ∨ (v = 2 ∨ v = 3) ∧ name = "ai").
  { intros v Hv. destruct (decide (v ≤ 1)).
    - exists (aisap.Username usr). left. rewrite Husr. split; [lia | done].
    - exists "ai". right. split; [lia | done]. }
  destruct (Hname v1 Hv1) as [n1 Hn1]. destruct (Hname v2 Hv2) as [n2 Hn2].
  do 2 eexists. split; [by apply (SetLevel_ok acct ai p v1 l perms n1) |].
  split.
  - erewrite (SetLevel_ok acct ai _ v2 l _ n2);
      [reflexivity | done | apply lookup_insert_eq | done].
  - rewrite (SetLevel_ok acct ai p v2 l perms n2) by done.
    cbn [aisap.vars aisap.heap]. unfold identity_at, with_Level. cbn.
    by rewrite insert_insert_eq.
Qed.

Lemma SetLevel_last_wins_witness :
  ∃ p1 p2,
    aisap.SetLevel root_account app0 3 proc0 = aisap.Returned (None, p1)
    ∧ aisap.SetLevel root_account app0 0 p1 = aisap.Returned (None, p2)
    ∧ aisap.SetLevel root_account app0 0 proc0 = aisap.Returned (None, p2).
Proof.
  apply (SetLevel_last_wins root_account (aisap.mkUser "root" "/root") app0
           proc0 3 0 0%nat (aisap.mkPerms 1 [] [] [] []) eq_refl eq_refl eq_refl);
    lia.
Defined.

(** X11.  When the account of the process cannot be resolved, [SetLevel]
    panics at the levels 0 and 1, where it reads the user name of the nil
    account, and still succeeds at the levels 2 and 3, which do not look at
    the account. *)
Theorem SetLevel_without_account (acct : aisap.Account) (ai : aisap.AppImage)
    (p : aisap.Process) (v : Z) (l : nat) (perms : aisap.AppImagePerms) :
  aisap.user_Current acct = None →
  aisap.Perms ai = Some l → aisap.heap p !! l = Some perms →
  (v = 0 ∨ v = 1 → aisap.SetLevel acct ai v p = aisap.Panicked aisap.nil_deref)
  ∧ (v = 2 ∨ v = 3 →
     aisap.SetLevel acct ai v p
     = aisap.Returned
         (None, aisap.mkProcess (identity_at acct "ai" (aisap.vars p))
                  (<[l := with_Level perms v]> (aisap.heap p)))).
Proof.
  intros Hnone Hai Hl. split.
  - intros Hv. unfold aisap.SetLevel, aisap.updateHome. rewrite Hnone.
    by destruct Hv as [-> | ->].
  - intros Hv. apply SetLevel_ok; [done | done |]. by right.
Qed.

Lemma SetLevel_without_account_witness :
  aisap.SetLevel (aisap.mkAccount None 1000) app0 1 proc0
  = aisap.Panicked aisap.nil_deref.
Proof.
  apply (proj1 (SetLevel_without_account (aisap.mkAccount None 1000) app0
                  proc0 1 0%nat (aisap.mkPerms 1 [] [] [] [])
                  eq_refl eq_refl eq_refl)).
  by right.
Defined.

(** X12.  A change of level keeps the grants, and granting keeps the
    level: [SetLevel] and [AddFiles] can be called in either order, the
    state is the same.  (For a level in range and entries of three bytes or
    more.) *)
Theorem SetLevel_AddFiles_commute (acct : aisap.Account) (usr : aisap.User)
    (ai : aisap.AppImage) (p : aisap.Process) (v : Z) (s : list string)
    (l : nat) (perms : aisap.AppImagePerms) :
  aisap.user_Current acct = Some usr →
  aisap.Perms ai = Some l → aisap.heap p !! l = Some perms →
  0 ≤ v ≤ 3 → Forall (λ e, (3 ≤ String.length e)%nat) s →
  ∃ (r : list string) (p1 p2 p12 : aisap.Process),
    aisap.SetLevel acct ai v p = aisap.Returned (None, p1)
    ∧ aisap.AddFiles ai s p = aisap.Returned (r, p2)
    ∧ aisap.AddFiles ai s p1 = aisap.Returned (r, p12)
    ∧ aisap.SetLevel acct ai v p2 = aisap.Returned (None, p12)
    ∧ aisap.heap p12
      = <[l := aisap.mkPerms v (aisap.Files perms ++ r) (aisap.Devices perms)
                 (aisap.Sockets perms) (aisap.Share perms)]> (aisap.heap p).
Proof.
  intros Husr Hai Hl Hv Hs.
  destruct (AddFiles_loop_long [] s Hs) as (r & _ & Hr).
  assert (Hname : ∃ name,
            (v = 0 ∨ v = 1)
            ∧ (aisap.Username <$> aisap.user_Current acct) = Some name
            ∨ (v = 2 ∨ v = 3) ∧ name = "ai").
  { destruct (decide (v ≤ 1)).
    - exists (aisap.Username usr). left. rewrite Husr. split; [lia | done].
    - exists "ai". right. split; [lia | done]. }
  destruct Hname as [name Hname].
  exists r. do 3 eexists.
  split; [by apply (SetLevel_ok acct ai p v l perms name) |].
  split; [by apply AddFiles_result |].
  split; [apply AddFiles_result; [done | apply lookup_insert_eq | done | done] |].
  split.
  - erewrite (SetLevel_ok acct ai _ v l _ name);
      [| done | apply lookup_insert_eq | done].
    unfold with_record, with_Level, with_Files. cbn. by rewrite !insert_insert_eq.
  - unfold with_record, with_Level, with_Files. cbn. by rewrite insert_insert_eq.
Qed.

Lemma SetLevel_AddFiles_commute_witness :
  ∃ (r : list string) (p1 p2 p12 : aisap.Process),
    aisap.SetLevel root_account app0 2 proc0 = aisap.Returned (None, p1)
    ∧ aisap.AddFiles app0 ["/tmp/a"] proc0 = aisap.Returned (r, p2)
    ∧ aisap.AddFiles app0 ["/tmp/a"] p1 = aisap.Returned (r, p12)
    ∧ aisap.SetLevel root_account app0 2 p2 = aisap.Returned (None, p12).
Proof.
  destruct (SetLevel_AddFiles_commute root_account (aisap.mkUser "root" "/root")
              app0 proc0 2 ["/tmp/a"] 0%nat (aisap.mkPerms 1 [] [] [] [])
              eq_refl eq_refl eq_refl)
    as (r & p1 & p2 & p12 & H1 & H2 & H3 & H4 & _).
  - lia.
  - repeat constructor; simpl; lia.
  - by exists r, p1, p2, p12.
Defined.

Section OpenSuccess.

Variable elf_NewFile : string → error + helpers.elf_File.
Variable acct : aisap.Account.
Variable now : Z.
Variable RandString : Z → Z → string.
Variable Mount : World → string → string → Z → option error * World.
Variable filepath_Glob : World → string → list string * option error.
Variable ini_Load : string → option aisap.ini_File.
Variable getPermsFromAppImage :
  World → aisap.AppImage → gmap nat aisap.AppImagePerms →
  option nat * gmap nat aisap.AppImagePerms.

Local Abbreviation scratch := (scratch_dir now RandString).
Local Abbreviation mnt := (mount_dir now RandString).
Local Abbreviation made := (with_dirs now RandString).
Local Abbreviation open :=
  (aisap.NewAppImage elf_NewFile acct now RandString Mount filepath_Glob
     ini_Load getPermsFromAppImage).

Lemma SetLevel_keeps_heap_dom (ai : aisap.AppImage) (v : Z)
    (p p' : aisap.Process) (e : option error) (l : nat)
    (perms : aisap.AppImagePerms) :
  aisap.Perms ai = Some l → aisap.heap p !! l = Some perms →
  aisap.Level perms = v →
  aisap.SetLevel acct ai v p = aisap.Returned (e, p') →
  aisap.heap p' = aisap.heap p.
Proof.
  intros Hai Hl Hv. unfold aisap.SetLevel, aisap.update_Perms, aisap.set_vars.
  rewrite Hai.
  destruct (aisap.updateHome acct v (aisap.vars p)) as [[[err|] vars']|];
    cbn [aisap.heap]; [by intros [= <- <-] | | done].
  rewrite Hl. intros [= <- <-]. cbn [aisap.heap].
  apply insert_id. rewrite Hl. f_equal. destruct perms. by subst.
Qed.

(** X13.  What a container returned by [NewAppImage] looks like: its path
    is the source, its directories are the two directories of the run, its
    offset is the one [GetOffset] found, its version is never empty, and
    its data directory, root directory and image type are the zero values.
    Its permissions are the pointer that [getPermsFromAppImage] returned
    for the container as it was before, and the permission records of the
    process are as that call left them: [SetLevel] writes back the level
    it has read.  The error returned beside it is that of reading the
    desktop file. *)
Theorem NewAppImage_success (src : string) (p p' : aisap.Process)
    (w w' : World) (ai : aisap.AppImage) (err : option error) :
  open src p w = aisap.Returned ((Some ai, err), p', w') →
  aisap.Path ai = src
  ∧ aisap.runId ai = RandString now 8
  ∧ aisap.tempDir ai = scratch ∧ aisap.mountDir ai = mnt
  ∧ aisap.rmMountDir ai = true
  ∧ helpers.GetOffset elf_NewFile w src = (aisap.Offset ai, None)
  ∧ Mount (made w) src mnt (aisap.Offset ai) = (None, w')
  ∧ aisap.Version ai ≠ EmptyString
  ∧ aisap.dataDir ai = EmptyString ∧ aisap.rootDir ai = EmptyString
  ∧ aisap.imageType ai = 0
  ∧ (∃ fp0 rest, filepath_Glob w' (mnt ++ "/*.desktop") = (fp0 :: rest, None)
       ∧ err = (aisap.ioutil_ReadFile w' fp0).2)
  ∧ (∃ ai0 l h perms,
       ai = aisap.set_Perms ai0 l ∧ aisap.Perms ai0 = None
       ∧ getPermsFromAppImage w' ai0 (aisap.heap p) = (Some l, h)
       ∧ h !! l = Some perms
       ∧ aisap.heap p' = h).
Proof.
  intros Hopen.
  destruct (decide (scratch ∈ denied w)) as [Hden|Hok].
  { revert Hopen. unfold aisap.NewAppImage, aisap.MakeTemp.
    cbn [aisap.RunId aisap.runId aisap.set_runId].
    fold (scratch_dir now RandString).
    by rewrite (bool_decide_eq_true_2 _ Hden). }
  rewrite (NewAppImage_after_dirs elf_NewFile acct now RandString Mount
             filepath_Glob ini_Load getPermsFromAppImage src p w Hok) in Hopen.
  destruct (helpers.GetOffset elf_NewFile w src) as [off [e|]] eqn:Hoff;
    [done |].
  destruct (Mount (made w) src mnt off) as [[e|] w3] eqn:Hmount; [done |].
  revert Hopen. unfold aisap.load_entry.
  cbn [aisap.mountDir aisap.set_Offset aisap.set_mountDir].
  destruct (filepath_Glob w3 (mnt ++ "/*.desktop")) as [fp [e|]] eqn:Hglob;
    [done |].
  destruct fp as [|fp0 rest]; [done |].
  destruct (aisap.ioutil_ReadFile w3 fp0) as [content rerr] eqn:Hread.
  destruct (ini_Load content) as [entry|]; [| done].
  match goal with
  | |- context [getPermsFromAppImage w3 ?a] =>
      set (ai0 := a);
      destruct (getPermsFromAppImage w3 ai0 (aisap.heap p)) as [[l|] h]
        eqn:Hperms; [| done]
  end.
  destruct (h !! l) as [perms|] eqn:Hl; [| done].
  destruct (aisap.SetLevel acct (aisap.set_Perms ai0 l) (aisap.Level perms)
              (aisap.mkProcess (aisap.vars p) h))
    as [[e p'']|] eqn:Hset; [| done].
  intros [= <- <- <- <-].
  apply SetLevel_keeps_heap_dom with (l := l) (perms := perms) in Hset;
    [| done | done | done].
  cbn [aisap.heap] in Hset.
  repeat (split; [first [done | by rewrite Hread] |]).
  split.
  - subst ai0. cbn [aisap.Version aisap.set_Perms aisap.set_entry].
    by destruct (String.eqb_spec
                   (aisap.ini_Value entry "Desktop Entry" "X-AppImage-Version")
                   EmptyString).
  - repeat (split; [done |]). split.
    + exists fp0, rest. by rewrite Hread.
    + by exists ai0, l, h, perms.
Qed.

End OpenSuccess.

Lemma NewAppImage_success_witness :
  ∃ ai p' w',
    open_ok "/app" proc0 (disk type2_file)
    = aisap.Returned ((Some ai, None), p', w')
    ∧ aisap.Offset ai = 64 + 64 * 30
    ∧ aisap.mountDir ai = "/tmp/.aisapTemp_abcdefgh/.mount_abcdefgh"
    ∧ aisap.Version ai ≠ EmptyString.
Proof.
  destruct (open_ok "/app" proc0 (disk type2_file))
    as [[[[[ai|] [e|]] p'] w']|m] eqn:Hrun;
    try (vm_compute in Hrun; discriminate Hrun).
  assert (Hoff : aisap.Offset ai = 64 + 64 * 30)
    by (vm_compute in Hrun; by injection Hrun as <- _ _).
  exists ai, p', w'. split; [done |]. split; [done |].
  pose proof (NewAppImage_success _ _ _ _ _ _ _ _ _ _ _ _ _ _ _ Hrun)
    as (_ & _ & _ & Hmnt & _ & _ & _ & Hver & _).
  split; [exact Hmnt | exact Hver].
Defined.

Lemma HasSuffix_spec (s suf : string) :
  suf ≠ EmptyString →
  aisap.strings_HasSuffix s suf = true ↔ ∃ base, s = base ++ suf.
Proof.
  intros Hsuf. unfold aisap.strings_HasSuffix.
  rewrite andb_true_iff, Nat.leb_le, String.eqb_eq.
  rewrite <- (suffix_substring s suf Hsuf). tauto.
Qed.

Lemma has_icon_ext_spec (s : string) :
  aisap.has_icon_ext s = true ↔ icon_name s.
Proof.
  unfold aisap.has_icon_ext, icon_name.
  rewrite orb_true_iff, !HasSuffix_spec by done.
  split.
  - intros [[base ->]|[base ->]]; exists base; [by left | by right].
  - intros [base [-> | ->]]; [left | right]; by exists base.
Qed.

Lemma icon_loop_ok (w : World) (fp : list string) (r : option string)
    (name : string) :
  aisap.icon_loop w fp = (r, name, None) →
  ∃ content (skipped rest : list string),
    r = Some content ∧ os_Open w name = Some content ∧ icon_name name
    ∧ fp = (skipped ++ name :: rest)%list
    ∧ Forall (λ v, ¬ icon_name v) skipped.
Proof.
  induction fp as [|v fp IH]; [done |]. cbn [aisap.icon_loop].
  destruct (aisap.has_icon_ext v) eqn:Hext.
  - unfold aisap.open_reader. destruct (os_Open w v) as [content|] eqn:Hopen;
      [| done].
    intros [= <- <-]. exists content, [], fp. repeat split; try done.
    by apply has_icon_ext_spec.
  - intros Hloop. destruct (IH Hloop) as (content & skipped & rest & ? & ? & ? & -> & ?).
    exists content, (v :: skipped), rest. repeat split; try done.
    constructor; [| done]. rewrite <- has_icon_ext_spec. congruence.
Qed.

(** X14.  Whenever [Icon] returns no error it returns a reader and a name
    that ends in [.png] or [.svg].  When the desktop entry names the icon
    with such an extension, the file read is that name under the mount
    directory and the name returned is the entry's value as it is; else the
    file is the first match of the glob with such an extension, and the name
    returned is the path of that match. *)
Theorem Icon_ok (filepath_Glob : World → string → list string * option error)
    (ai : aisap.AppImage) (w : World) (r : option string) (name : string) :
  aisap.Icon filepath_Glob ai w = (r, name, None) →
  ∃ desktop content,
    aisap.Desktop ai = Some desktop ∧ r = Some content ∧ icon_name name
    ∧ let iconf := aisap.ini_Value desktop "Desktop Entry" "Icon" in
      (icon_name iconf ∧ name = iconf
       ∧ os_Open w (filepath_Join (aisap.mountDir ai) iconf) = Some content)
      ∨ (¬ icon_name iconf ∧ os_Open w name = Some content
         ∧ ∃ skipped rest,
             filepath_Glob w (filepath_Join (aisap.mountDir ai) iconf ++ "*")
             = ((skipped ++ name :: rest)%list, None)
             ∧ Forall (λ v, ¬ icon_name v) skipped).
Proof.
  unfold aisap.Icon. destruct (aisap.Desktop ai) as [desktop|]; [| done].
  destruct (String.eqb _ EmptyString); [done |].
  destruct (aisap.has_icon_ext _) eqn:Hext.
  - unfold aisap.open_reader.
    destruct (os_Open w _) as [content|] eqn:Hopen; [| done].
    intros [= <- <-]. apply has_icon_ext_spec in Hext.
    exists desktop, content. repeat split; try done. by left.
  - destruct (filepath_Glob w _) as [fp [e|]] eqn:Hglob; [done |].
    intros Hloop.
    destruct (icon_loop_ok _ _ _ _ Hloop)
      as (content & skipped & rest & -> & Hopen & Hname & -> & Hskip).
    exists desktop, content. repeat split; try done. right.
    split; [rewrite <- has_icon_ext_spec; congruence |].
    split; [done |]. by exists skipped, rest.
Qed.

Lemma Icon_ok_witness :
  ∃ content,
    aisap.Icon (λ _ _, (["/mnt/app.txt"; "/mnt/app.svg"], None))
      (app_with_icon "app") mounted_icons
    = (Some content, "/mnt/app.svg", None)
    ∧ icon_name "/mnt/app.svg".
Proof.
  destruct (Icon_ok (λ _ _, (["/mnt/app.txt"; "/mnt/app.svg"], None))
              (app_with_icon "app") mounted_icons (Some "<svg/>")
              "/mnt/app.svg" ltac:(vm_compute; reflexivity))
    as (desktop & content & _ & _ & Hname & _).
  exists "<svg/>". split; [vm_compute; reflexivity | exact Hname].
Defined.

Lemma substring_all (s : string) : substring 0 (String.length s) s = s.
Proof. induction s as [|x s IH]; [done |]. simpl. by f_equal. Qed.

Lemma read_id_rest (content : string) :
  aisap.read_id content ++ substring 4 (String.length content - 4) content
  = padded content.
Proof.
  unfold aisap.read_id, padded.
  destruct content as [|a [|b [|c [|d rest]]]]; try reflexivity.
  cbn [String.length substring].
  assert (Hnil : substring 0 0 rest = EmptyString) by (by destruct rest).
  rewrite Hnil. cbn [String.length].
  replace (S (S (S (S (String.length rest)))) - 4)%nat
    with (String.length rest) by lia.
  replace (4 - S (S (S (S (String.length rest)))))%nat with 0%nat by lia.
  rewrite substring_all. cbn [Nat.sub repeat string_of_list_ascii].
  by rewrite !string_app_nil_r, !app_cons.
Qed.

Section ThumbnailProperties.

Variable ConvertWithAspect :
  string → Z → string → option string * option error.

(** X15.  For a [.DirIcon] that is a PNG, the reader [Thumbnail] returns
    does not give the image: the four bytes of the PNG signature were read
    to tell the format and are not put back, so the reader starts behind
    them.  The converter is not called. *)
Theorem Thumbnail_png_starts_behind_magic (ai : aisap.AppImage)
    (p : aisap.Process) (w : World) (rest : string) :
  os_Open w (filepath_Join (aisap.mountDir ai) ".DirIcon")
    = Some (aisap.PNG_MAGIC ++ rest) →
  aisap.Thumbnail ConvertWithAspect ai p w
  = ((Some rest, None), aisap.set_err p None)
  ∧ rest ≠ aisap.PNG_MAGIC ++ rest.
Proof.
  intros Hopen. split.
  - unfold aisap.Thumbnail. rewrite Hopen.
    assert (Hid : aisap.read_id (aisap.PNG_MAGIC ++ rest) = aisap.PNG_MAGIC).
    { unfold aisap.read_id.
      assert (Hsub : substring 0 4 (aisap.PNG_MAGIC ++ rest) = aisap.PNG_MAGIC)
        by exact (substring_take_app aisap.PNG_MAGIC rest).
      rewrite Hsub. reflexivity. }
    rewrite Hid, String.eqb_refl. cbn [negb].
    rewrite string_length_app.
    replace (String.length aisap.PNG_MAGIC + String.length rest - 4)%nat
      with (String.length rest) by (simpl; lia).
    rewrite (substring_skip_app aisap.PNG_MAGIC rest).
    by rewrite substring_all.
  - intros Heq. apply (f_equal String.length) in Heq.
    rewrite string_length_app in Heq. simpl in Heq. lia.
Qed.

(** X16.  For a [.DirIcon] that does not start with the PNG signature,
    the converter is given the whole content, the four bytes read ahead put
    back in front, filled up with zero bytes when the file has fewer than
    four; [Thumbnail] returns what the converter returns and leaves its
    error in the package variable [err]. *)
Theorem Thumbnail_converts_whole_file (ai : aisap.AppImage)
    (p : aisap.Process) (w : World) (content : string) :
  os_Open w (filepath_Join (aisap.mountDir ai) ".DirIcon") = Some content →
  ¬ has_prefix aisap.PNG_MAGIC content →
  aisap.Thumbnail ConvertWithAspect ai p w
  = (ConvertWithAspect (padded content) 256 "png",
     aisap.set_err p (ConvertWithAspect (padded content) 256 "png").2)
  ∧ ((4 ≤ String.length content)%nat → padded content = content).
Proof.
  intros Hopen Hnot. split.
  - unfold aisap.Thumbnail. rewrite Hopen.
    destruct (String.eqb_spec (aisap.read_id content) aisap.PNG_MAGIC)
      as [Hid|_].
    + exfalso. apply Hnot. exists (substring 4 (String.length content - 4) content).
      pose proof (read_id_rest content) as Hrest. rewrite Hid in Hrest.
      unfold aisap.read_id in Hid.
      assert (Hlen : (4 ≤ String.length content)%nat).
      { destruct content as [|a [|b [|c [|d rest]]]]; try discriminate Hid.
        simpl. lia. }
      unfold padded in Hrest.
      replace (4 - String.length content)%nat with 0%nat in Hrest by lia.
      cbn [repeat string_of_list_ascii] in Hrest.
      by rewrite string_app_nil_r in Hrest.
    + cbn [negb]. rewrite read_id_rest.
      by destruct (ConvertWithAspect (padded content) 256 "png") as [out e].
  - intros Hlen. unfold padded.
    replace (4 - String.length content)%nat with 0%nat by lia.
    apply string_app_nil_r.
Qed.

End ThumbnailProperties.

Lemma Thumbnail_png_starts_behind_magic_witness :
  aisap.Thumbnail (λ _ _ _, (None, None))
    (aisap.set_mountDir aisap.zero_AppImage "/mnt") proc0 mounted_icons
  = ((Some "rest of the image", None), aisap.set_err proc0 None).
Proof.
  apply (proj1 (Thumbnail_png_starts_behind_magic (λ _ _ _, (None, None))
                  (aisap.set_mountDir aisap.zero_AppImage "/mnt") proc0
                  mounted_icons "rest of the image"
                  ltac:(vm_compute; reflexivity))).
Defined.

Lemma Thumbnail_converts_whole_file_witness :
  aisap.Thumbnail (λ f _ _, (Some f, None))
    (aisap.set_mountDir aisap.zero_AppImage "/mnt") proc0
    (mkWorld {[ "/mnt/.DirIcon" := "<svg/>" ]} ∅ ∅)
  = ((Some "<svg/>", None), aisap.set_err proc0 None).
Proof.
  refine (proj1 (Thumbnail_converts_whole_file (λ f _ _, (Some f, None))
                   (aisap.set_mountDir aisap.zero_AppImage "/mnt") proc0
                   (mkWorld {[ "/mnt/.DirIcon" := "<svg/>" ]} ∅ ∅) "<svg/>"
                   _ _)).
  - vm_compute. reflexivity.
  - intros [rest Hrest]. discriminate Hrest.
Defined.

(** * Further properties of the Zig implementation, and of the two together *)

Lemma substring_add (a n m : nat) (s : string) :
  substring a (n + m) s = substring a n s ++ substring (a + n) m s.
Proof.
  revert a n. induction s as [|c s IH]; intros a n.
  - destruct a, n, m; reflexivity.
  - destruct a as [|a].
    + destruct n as [|n]; [by rewrite app_nil_l |].
      simpl. rewrite app_cons. f_equal. apply (IH 0%nat n).
    + simpl. apply IH.
Qed.

Lemma app_inj_length (a b c d : string) :
  String.length a = String.length c → a ++ b = c ++ d → a = c ∧ b = d.
Proof.
  revert c. induction a as [|x a IH]; intros [|y c] Hlen Heq; try done.
  rewrite !app_cons in Heq. injection Heq as -> Heq.
  destruct (IH c) as [-> ->]; [simpl in Hlen; lia | done | done].
Qed.

Lemma byte_val_inj (c d : ascii) : byte_val c = byte_val d → c = d.
Proof.
  unfold byte_val. intros H. apply N2Z.inj in H.
  rewrite <- (ascii_N_embedding c), <- (ascii_N_embedding d). by rewrite H.
Qed.

Lemma magic_loop_eqb (magic str : string) :
  String.length magic = String.length str →
  helpers.magic_loop magic str = String.eqb magic str.
Proof.
  intros Hlen. destruct (String.eqb_spec magic str) as [Heq|Hne].
  - by apply magic_loop_eq.
  - apply not_true_is_false. intros H. by apply magic_loop_eq in H.
Qed.

(** [HasMagic] as a comparison of the window with the magic. *)
Lemma HasMagic_eqb (f str : string) (off : nat) :
  helpers.HasMagic f str off
  = String.eqb (substring off (String.length str) f) str.
Proof.
  unfold helpers.HasMagic, helpers.ReadFull.
  destruct (Nat.eqb_spec (String.length (substring off (String.length str) f))
              (String.length str)) as [Hlen|Hlen].
  - by apply magic_loop_eqb.
  - symmetry. apply String.eqb_neq. intros Heq. by rewrite Heq in Hlen.
Qed.

(** The marker with its version byte, as the Zig code looks at it: the two
    bytes [AI], then the byte at offset 10 as a number. *)
Lemma marker_eqb (f : string) (version : ascii) :
  (11 ≤ String.length f)%nat →
  String.eqb (substring 8 3 f) ("AI" ++ String version EmptyString)
  = String.eqb (substring 8 2 f) "AI"
    && (uint_le (substring 10 1 f) =? byte_val version).
Proof.
  intros Hlen.
  pose proof (substring_add 8 2 1 f) as Hsplit. cbn [Nat.add] in Hsplit.
  pose proof (substring_length_full 8 2 f ltac:(lia)) as H2.
  pose proof (substring_length_full 10 1 f ltac:(lia)) as H1.
  destruct (substring 10 1 f) as [|c [|? ?]] eqn:Hc; try done.
  cbn [uint_le]. rewrite Z.mul_0_r, Z.add_0_r. rewrite Hsplit.
  destruct (String.eqb_spec (substring 8 2 f) "AI") as [HAI|HAI].
  - rewrite HAI. cbn [andb].
    destruct (Z.eqb_spec (byte_val c) (byte_val version)) as [Hv|Hv].
    + apply byte_val_inj in Hv as ->. apply String.eqb_refl.
    + apply String.eqb_neq. intros Heq. apply Hv.
      apply app_inj_length in Heq as [_ [= ->]]; done.
  - cbn [andb]. apply String.eqb_neq. intros Heq. apply HAI.
    apply app_inj_length in Heq as [-> _]; done.
Qed.

Lemma shimg_is_no_elf (f : string) :
  substring 0 19 f = SHIMG_MAGIC → substring 0 4 f ≠ ELF_MAGIC.
Proof.
  intros Hs He. rewrite <- (substring_substring 0 4 19 f) in He by lia.
  rewrite Hs in He. discriminate He.
Qed.

(** X17.  The two detections agree on every input of 19 bytes or more:
    type 1, type 2 and the shappimage are the same for both, the unknown
    ELF of the Go code is one of the two errors [InvalidFromat] and
    [UnknownAppImageVersion] of the Zig code, and what the one rejects as no
    AppImage the other rejects as [InvalidFormat].  Below 19 bytes the Zig
    code rejects every input. *)
Theorem detections_agree (w : World) (src f : string) :
  os_Open w src = Some f →
  let go := helpers.GetAppImageType w src in
  let zig := Zig.getKind f in
  ((String.length f < 19)%nat → zig = Zig.Err Zig.InvalidFormat)
  ∧ ((19 ≤ String.length f)%nat →
     (go = Type1Elf ↔ zig = Zig.Ok Zig.type1)
     ∧ (go = Type2Elf ↔ zig = Zig.Ok Zig.type2)
     ∧ (go = ShellScript ↔ zig = Zig.Ok Zig.shimg)
     ∧ (go = UnknownElf
        ↔ zig = Zig.Err Zig.InvalidFromat
          ∨ zig = Zig.Err Zig.UnknownAppImageVersion)
     ∧ (go = InvalidFormat ↔ zig = Zig.Err Zig.InvalidFormat)).
Proof.
  intros Hopen go zig. subst go zig. split.
  - intros Hlen. unfold Zig.getKind.
    pose proof (substring_length_src 0 19 f).
    destruct (Nat.ltb_spec (String.length (substring 0 19 f)) 19); [done | lia].
  - intros Hlen. unfold helpers.GetAppImageType, Zig.getKind. rewrite Hopen.
    rewrite !HasMagic_eqb.
    change (String.length ELF_MAGIC) with 4%nat.
    change (String.length AI_TYPE1) with 3%nat.
    change (String.length AI_TYPE2) with 3%nat.
    change (String.length SHIMG_MAGIC) with 19%nat.
    rewrite (substring_length_full 0 19 f) by lia. cbn [Nat.ltb Nat.leb].
    rewrite !(substring_substring _ _ 19 f) by lia.
    unfold AI_TYPE1, AI_TYPE2. rewrite !marker_eqb by lia.
    change (byte_val "001") with 1. change (byte_val "002") with 2.
    pose proof (shimg_is_no_elf f) as Hexcl.
    destruct (String.eqb_spec (substring 0 19 f) SHIMG_MAGIC) as [Hs|Hs];
      destruct (String.eqb_spec (substring 0 4 f) ELF_MAGIC) as [He|He];
      [by destruct (Hexcl Hs) | | |];
      destruct (String.eqb (substring 8 2 f) "AI");
      destruct (Z.eqb_spec (uint_le (substring 10 1 f)) 1) as [H1|H1];
      destruct (Z.eqb_spec (uint_le (substring 10 1 f)) 2) as [H2|H2];
      try lia; cbn [andb negb];
      unfold Type1Elf, Type2Elf, UnknownElf, ShellScript, InvalidFormat;
      intuition (discriminate || eauto).
Qed.

Lemma detections_agree_witness :
  helpers.GetAppImageType (mkWorld {[ "app" := type2_file ]} ∅ ∅) "app"
    = Type2Elf
  ↔ Zig.getKind type2_file = Zig.Ok Zig.type2.
Proof.
  exact (proj1 (proj2 (proj2 (detections_agree
    (mkWorld {[ "app" := type2_file ]} ∅ ∅) "app" type2_file eq_refl)
    ltac:(vm_compute; lia)))).
Defined.

Lemma getOffsetFromElf_spec_witness :
  Zig.getOffsetFromElf type2_file = Zig.Ok (64 + 64 * 30).
Proof.
  refine (proj1 (getOffsetFromElf_spec type2_file
            (Zig.mkHeader LittleEndian true 64 64 30) _) _ _);
    vm_compute; reflexivity.
Defined.

Lemma field_of_prefix (bo : ByteOrder) (f : string) (m off n : nat) :
  (off + n ≤ m)%nat →
  helpers.field bo (substring 0 m f) off n = helpers.field bo f off n.
Proof.
  intros Hle. unfold helpers.field. by rewrite substring_substring.
Qed.

(** X19.  On a type-2 file, whenever the Zig resolver returns an offset
    below [2^63], the Go resolver returns the same offset, provided the ELF
    library accepts the file and reports the class and the byte order that
    the identification bytes 4 and 5 hold. *)
Theorem elf_offsets_agree (NewFile : string → error + helpers.elf_File)
    (w : World) (src f : string) (e : helpers.elf_File) (n : Z) :
  os_Open w src = Some f →
  helpers.GetAppImageType w src = Type2Elf →
  NewFile f = inr e →
  helpers.Class e = uint_le (substring 4 1 f) →
  helpers.FileByteOrder e
    = (if uint_le (substring 5 1 f) =? 1 then LittleEndian else BigEndian) →
  Zig.getOffsetFromElf f = Zig.Ok n → n < 2 ^ 63 →
  helpers.GetOffset NewFile w src = (n, None).
Proof.
  intros Hopen Hkind Hnew Hclass Hbo Hzig Hn.
  rewrite GetOffset_type2 by done. unfold helpers.getElfSize.
  rewrite Hopen, Hnew.
  revert Hzig. unfold Zig.getOffsetFromElf, Zig.Header_read.
  destruct (helpers.ReadFull f 0 64) as [b|] eqn:Hread; [| done].
  destruct (ReadFull_Some _ _ _ Hread) as (Hb & Hblen & Hflen).
  destruct (negb (String.eqb (substring 0 4 b) ELF_MAGIC)); [done |].
  destruct (negb (uint_le (substring 6 1 b) =? 1)); [done |].
  rewrite Hb, !(substring_substring _ _ 64 f) by lia. rewrite <- Hb.
  rewrite <- Hclass.
  destruct (negb _); [done |].
  destruct (negb _) eqn:Hcls; [done |].
  rewrite <- Hbo.
  assert (Hprod : ∀ s k o : Z, 0 ≤ s < 2 ^ 16 → 0 ≤ k < 2 ^ 16 → 0 ≤ o →
            @mbind Zig.Result Zig.Result_bind Z Z
              (λ prod, Zig.checked 64 (o + prod)) (Zig.checked 16 (s * k))
            = Zig.Ok n →
            n = o + s * k).
  { intros s k o Hs Hk Ho. unfold Zig.checked.
    destruct ((0 <=? s * k) && (s * k <? 2 ^ 16)); [| done]. cbn.
    destruct ((0 <=? o + s * k) && (o + s * k <? 2 ^ 64)); [| done].
    by intros [= <-]. }
  destruct (Z.eqb_spec (helpers.Class e) 2) as [H64|H64].
  - rewrite H64. cbn [Z.eqb Pos.eqb]. unfold helpers.Read_Header64.
    rewrite Hread. cbn. intros Hz.
    pose proof (field_range (helpers.FileByteOrder e) b 40 8).
    pose proof (field_range (helpers.FileByteOrder e) b 58 2).
    pose proof (field_range (helpers.FileByteOrder e) b 60 2).
    apply Hprod in Hz; [| simpl in *; lia..]. f_equal.
    rewrite elf_size_exact; cbn; simpl in *; lia.
  - assert (H32 : helpers.Class e = 1).
    { apply negb_false_iff, orb_true_iff in Hcls as [H|H]; lia. }
    rewrite H32. cbn [Z.eqb Pos.eqb]. unfold helpers.ELFCLASS64, helpers.ELFCLASS32.
    cbn [Z.eqb Pos.eqb]. unfold helpers.Read_Header32.
    rewrite (ReadFull_enough f 52) by lia. cbn. intros Hz.
    rewrite Hb, !(field_of_prefix _ f 64) in Hz by lia.
    rewrite !(field_of_prefix _ f 52) by lia.
    pose proof (field_range (helpers.FileByteOrder e) f 32 4).
    pose proof (field_range (helpers.FileByteOrder e) f 46 2).
    pose proof (field_range (helpers.FileByteOrder e) f 48 2).
    apply Hprod in Hz; [| simpl in *; lia..]. f_equal.
    rewrite elf_size_exact; cbn; rewrite ?(field_of_prefix _ f 52) by lia;
      simpl in *; lia.
Qed.

Lemma elf_offsets_agree_witness :
  helpers.GetOffset helpers.NewFile_ident
    (mkWorld {[ "app" := elf32_file ]} ∅ ∅) "app"
  = (52 + 40 * 30, None).
Proof.
  refine (elf_offsets_agree helpers.NewFile_ident
            (mkWorld {[ "app" := elf32_file ]} ∅ ∅) "app" elf32_file
            (helpers.mkElfFile 1 LittleEndian) (52 + 40 * 30) _ _ _ _ _ _ _);
    vm_compute; reflexivity.
Defined.

(** ** The Zig line reader and [getOffsetFromShimg] *)

Lemma read_line (l rest acc : string) (i : nat) :
  count_byte helpers.NL l = 0%nat → (i + String.length l ≤ 255)%nat →
  Zig.readUntilDelimiterOrEof (l ++ String helpers.NL rest) i acc
  = Zig.Ok (Some (acc ++ l, rest)).
Proof.
  revert i acc. induction l as [|c l IH]; intros i acc Hnl Hlen.
  - rewrite app_nil_l, string_app_nil_r. cbn [Zig.readUntilDelimiterOrEof].
    destruct (Nat.leb_spec 256 i); [cbn [String.length] in Hlen; lia |].
    by rewrite Ascii.eqb_refl.
  - rewrite app_cons. cbn [Zig.readUntilDelimiterOrEof].
    cbn [String.length] in Hlen.
    destruct (Nat.leb_spec 256 i); [lia |].
    cbn [count_byte] in Hnl. destruct (Ascii.eqb c helpers.NL); [done |].
    rewrite IH by (done || lia).
    by rewrite string_app_assoc, app_cons, app_nil_l.
Qed.

Lemma read_last (l acc : string) (i : nat) :
  count_byte helpers.NL l = 0%nat → (i + String.length l ≤ 255)%nat →
  l ≠ EmptyString →
  Zig.readUntilDelimiterOrEof l i acc = Zig.Ok (Some (acc ++ l, EmptyString)).
Proof.
  revert i acc. induction l as [|c l IH]; intros i acc Hnl Hlen Hne; [done |].
  cbn [Zig.readUntilDelimiterOrEof]. cbn [String.length] in Hlen.
  destruct (Nat.leb_spec 256 i); [lia |].
  cbn [count_byte] in Hnl. destruct (Ascii.eqb c helpers.NL); [done |].
  destruct l as [|d l].
  - cbn [Zig.readUntilDelimiterOrEof].
    destruct (Nat.leb_spec 256 (S i)); [cbn [String.length] in Hlen; lia |].
    done.
  - rewrite IH by (done || lia).
    by rewrite string_app_assoc, app_cons, app_nil_l.
Qed.

Lemma read_long (l rest acc : string) (i : nat) :
  count_byte helpers.NL l = 0%nat → (256 ≤ i + String.length l)%nat →
  Zig.readUntilDelimiterOrEof (l ++ rest) i acc = Zig.Err Zig.StreamTooLong.
Proof.
  revert i acc. induction l as [|c l IH]; intros i acc Hnl Hlen.
  - cbn [String.length] in Hlen. rewrite app_nil_l.
    destruct rest; cbn [Zig.readUntilDelimiterOrEof];
      by destruct (Nat.leb_spec 256 i); [| lia].
  - rewrite app_cons. cbn [Zig.readUntilDelimiterOrEof].
    cbn [String.length] in Hlen.
    destruct (Nat.leb_spec 256 i); [done |].
    cbn [count_byte] in Hnl. destruct (Ascii.eqb c helpers.NL); [done |].
    apply IH; [done | lia].
Qed.

Lemma read_first (l tail : string) :
  short_line l → l ≠ EmptyString → line_end tail →
  ∃ rest, Zig.readUntilDelimiterOrEof (l ++ tail) 0 EmptyString
          = Zig.Ok (Some (l, rest)).
Proof.
  intros [Hnl Hlen] Hne [->|[rest ->]].
  - exists EmptyString. rewrite string_app_nil_r.
    by rewrite read_last, app_nil_l by (done || lia).
  - exists rest. by rewrite read_line, app_nil_l by (done || lia).
Qed.

Lemma zig_offset_line (text : string) :
  (10 <? String.length text)%nat
  && String.eqb (substring 0 11 text) "sfs_offset=" = true
  ↔ has_prefix "sfs_offset=" text.
Proof.
  rewrite andb_true_iff, Nat.ltb_lt, String.eqb_eq. split.
  - intros [Hlen Hpre].
    destruct (substring_split 0 11 text) as (pre & v & Htext & Hnil);
      [done | rewrite Hpre; done |].
    destruct pre; [| done]. rewrite app_nil_l, Hpre in Htext. by exists v.
  - intros [v ->]. split.
    + rewrite string_length_app. cbn [String.length]. lia.
    + exact (substring_take_app "sfs_offset=" v).
Qed.

Lemma shimg_loop_end (n : nat) :
  Zig.shimg_loop n EmptyString = Zig.Err Zig.InvalidFormat.
Proof. by destruct n. Qed.

Lemma shimg_loop_skip (n : nat) (pre : list string) (data : string) :
  Forall skipped_line pre → (length pre ≤ n)%nat →
  Zig.shimg_loop n (unlines pre data) = Zig.shimg_loop (n - length pre) data.
Proof.
  intros Hpre. revert n. induction Hpre as [|l pre [[Hnl Hlen] Hl] _ IH];
    intros n Hn.
  - cbn [unlines fold_right length]. by rewrite Nat.sub_0_r.
  - cbn [length] in Hn. destruct n as [|n]; [lia |].
    cbn [unlines fold_right length Zig.shimg_loop Nat.sub].
    rewrite read_line, app_nil_l by (done || lia).
    destruct (_ && _) eqn:E; [by apply zig_offset_line in E |].
    apply IH. lia.
Qed.

Lemma tokenize_offset_line (v : string) :
  count_byte "=" v = 0%nat →
  Zig.tokenize ("sfs_offset=" ++ v) "="
  = if decide (v = EmptyString) then ["sfs_offset"] else ["sfs_offset"; v].
Proof.
  intros Hv. unfold Zig.tokenize, helpers.strings_Split.
  change ("sfs_offset=" ++ v) with ("sfs_offset" ++ String "=" v).
  rewrite Split_from_sep by done. rewrite Split_from_no_sep by done.
  rewrite !app_nil_l, filter_cons, decide_True by done.
  rewrite filter_cons. by destruct (decide (v ≠ EmptyString)), (decide (v = EmptyString)).
Qed.

(** X20.  The Zig scan on a file whose first lines fit the line buffer and
    do not start with [sfs_offset=]: when fewer than 512 of them stand
    before a line [sfs_offset=v] with no further [=], the result is what
    [parseInt] makes of [v], and [NotShimg] when [v] is empty. *)
Theorem getOffsetFromShimg_found (pre : list string) (v tail : string) :
  Forall skipped_line pre → (length pre < 512)%nat →
  short_line ("sfs_offset=" ++ v) → count_byte "=" v = 0%nat →
  line_end tail →
  Zig.getOffsetFromShimg (unlines pre (("sfs_offset=" ++ v) ++ tail))
  = if decide (v = EmptyString) then Zig.Err Zig.NotShimg else Zig.parseInt v.
Proof.
  intros Hpre Hlen Hshort Hv Htail. unfold Zig.getOffsetFromShimg.
  rewrite shimg_loop_skip by (done || lia).
  destruct (512 - length pre)%nat as [|n] eqn:Hn; [lia |].
  destruct (read_first ("sfs_offset=" ++ v) tail) as [rest Hread];
    [done | done | done |].
  cbn [Zig.shimg_loop]. rewrite Hread.
  rewrite (proj2 (zig_offset_line _)) by by exists v.
  rewrite tokenize_offset_line by done.
  by destruct (decide (v = EmptyString)).
Qed.

Lemma getOffsetFromShimg_found_witness :
  Zig.getOffsetFromShimg plain_shimg = Zig.parseInt "4096".
Proof.
  refine (getOffsetFromShimg_found ["#!/bin/sh"; "#.shImg.#"] "4096"
            (String helpers.NL (line "exit 0")) _ _ _ _ _).
  - repeat constructor; try (vm_compute; lia); intros [r Hr]; discriminate.
  - cbn [length]. lia.
  - split; vm_compute; [reflexivity | lia].
  - reflexivity.
  - right. by eexists.
Defined.

(** X21.  The two limits of the Zig scan.  Behind 512 skipped lines any
    further line, even one that assigns the offset, ends the scan with
    [NotShimg]; and a run of 256 bytes without a newline, in any of the
    first 513 lines, ends it with [StreamTooLong]. *)
Theorem getOffsetFromShimg_limits (pre : list string) (l tail : string) :
  Forall skipped_line pre → count_byte helpers.NL l = 0%nat →
  (length pre = 512%nat → short_line l → l ≠ EmptyString → line_end tail →
   Zig.getOffsetFromShimg (unlines pre (l ++ tail)) = Zig.Err Zig.NotShimg)
  ∧ ((length pre ≤ 512)%nat → (256 ≤ String.length l)%nat →
     Zig.getOffsetFromShimg (unlines pre (l ++ tail))
     = Zig.Err Zig.StreamTooLong).
Proof.
  intros Hpre Hnl. unfold Zig.getOffsetFromShimg. split.
  - intros Hlen Hshort Hne Htail. rewrite shimg_loop_skip by (done || lia).
    rewrite Hlen, Nat.sub_diag.
    destruct (read_first l tail) as [rest Hread]; [done.. |].
    cbn [Zig.shimg_loop]. by rewrite Hread.
  - intros Hlen Hlong. rewrite shimg_loop_skip by done.
    destruct (512 - length pre)%nat;
      cbn [Zig.shimg_loop]; by rewrite read_long by (done || lia).
Qed.

Lemma comment_lines_skipped : Forall skipped_line comment_lines.
Proof.
  apply List.Forall_forall. intros x Hx. apply repeat_spec in Hx as ->.
  split; [split; vm_compute; [reflexivity | lia] |].
  intros [r Hr]. discriminate.
Qed.

Lemma getOffsetFromShimg_limits_witness :
  Zig.getOffsetFromShimg (unlines comment_lines "sfs_offset=4096")
  = Zig.Err Zig.NotShimg
  ∧ Zig.getOffsetFromShimg (unlines ["#!/bin/sh"] long_line)
    = Zig.Err Zig.StreamTooLong.
Proof.
  split.
  - refine (proj1 (getOffsetFromShimg_limits comment_lines "sfs_offset=4096"
              EmptyString comment_lines_skipped _) _ _ _ _).
    + reflexivity.
    + unfold comment_lines. by rewrite repeat_length.
    + split; vm_compute; [reflexivity | lia].
    + discriminate.
    + by left.
  - refine (proj2 (getOffsetFromShimg_limits ["#!/bin/sh"] long_line
              EmptyString _ _) _ _).
    + repeat constructor; try (vm_compute; lia); intros [r Hr]; discriminate.
    + reflexivity.
    + cbn [length]. lia.
    + vm_compute. lia.
Defined.

(** X22.  A file of at most 512 lines that fit the line buffer, none of
    which starts with [sfs_offset=], is no shappimage for the Zig scan:
    the result is [InvalidFormat]. *)
Theorem getOffsetFromShimg_missing (lines : list string) (tail : string) :
  Forall skipped_line lines → skipped_line tail →
  (length lines + (if decide (tail = EmptyString) then 0 else 1) ≤ 512)%nat →
  Zig.getOffsetFromShimg (unlines lines tail) = Zig.Err Zig.InvalidFormat.
Proof.
  intros Hlines [[Hnl Hshort] Htail] Hlen. unfold Zig.getOffsetFromShimg.
  rewrite shimg_loop_skip by (done || destruct (decide _); lia).
  destruct (decide (tail = EmptyString)) as [->|Hne];
    [apply shimg_loop_end |].
  destruct (512 - length lines)%nat as [|n] eqn:Hn; [lia |].
  cbn [Zig.shimg_loop]. rewrite read_last, app_nil_l by (done || lia).
  destruct (_ && _) eqn:E; [by apply zig_offset_line in E |].
  apply shimg_loop_end.
Qed.

Lemma getOffsetFromShimg_missing_witness :
  Zig.getOffsetFromShimg (unlines ["#!/bin/sh"; "#.shImg.#"] "exit 0")
  = Zig.Err Zig.InvalidFormat.
Proof.
  refine (getOffsetFromShimg_missing ["#!/bin/sh"; "#.shImg.#"] "exit 0" _ _ _).
  - repeat constructor; try (vm_compute; lia); intros [r Hr]; discriminate.
  - repeat constructor; try (vm_compute; lia). intros [r Hr]. discriminate.
  - vm_compute. lia.
Defined.

(** ** The two shappimage scans together *)

Lemma parse_digits_dec (s : string) (x : Z) :
  all_digits s → 0 ≤ x → dec_value s x < 2 ^ 64 →
  Zig.parse_digits s 10 false x = Zig.Ok (dec_value s x).
Proof.
  revert x. induction s as [|c s IH]; intros x Hs Hx Hv; [done |].
  destruct Hs as [Hc Hs]. unfold is_digit in Hc. cbn [dec_value] in Hv.
  pose proof (dec_value_mono s (x * 10 + (byte_val c - 48)) Hs ltac:(lia)).
  cbn [Zig.parse_digits dec_value].
  destruct (Ascii.eqb_spec c "_") as [->|_].
  { pose proof (eq_refl : byte_val "_" = 95). lia. }
  unfold Zig.charToDigit. cbv zeta.
  rewrite (proj2 (andb_true_iff _ _)) by (split; lia).
  destruct (Z.ltb_spec (byte_val c - 48) 10); [| lia].
  cbn [mbind Zig.Result_bind].
  rewrite (proj2 (andb_true_iff _ _)) by (split; lia).
  apply IH; [done | lia | done].
Qed.

Lemma digits_last (s : string) :
  all_digits s → last (list_ascii_of_string s) ≠ Some "_"%char.
Proof.
  induction s as [|c s IH]; intros Hs; [done |].
  destruct Hs as [Hc Hs]. cbn [list_ascii_of_string]. rewrite last_cons.
  destruct (last (list_ascii_of_string s)) eqn:E; [by apply IH |].
  intros [= ->]. unfold is_digit in Hc.
  pose proof (eq_refl : byte_val "_" = 95). lia.
Qed.

Lemma parseInt_digits (ds : string) :
  ds ≠ EmptyString → all_digits ds → dec_value ds 0 < 2 ^ 64 →
  Zig.parseInt ds = Zig.Ok (dec_value ds 0).
Proof.
  intros Hne Hds Hv. destruct ds as [|c0 rest0]; [done |].
  assert (Hc0 : is_digit c0) by apply Hds. unfold is_digit in Hc0.
  unfold Zig.parseInt.
  destruct (Ascii.eqb_spec c0 "+") as [->|_].
  { pose proof (eq_refl : byte_val "+" = 43). lia. }
  destruct (Ascii.eqb_spec c0 "-") as [->|_].
  { pose proof (eq_refl : byte_val "-" = 45). lia. }
  unfold Zig.parseWithSign.
  match goal with
  | |- context [default _ ?p] => assert (Hpre : p = None)
  end.
  { destruct rest0 as [|c1 [|c2 rest2]]; [done | done |].
    destruct (Ascii.eqb c0 "0"); [| done].
    assert (Hc1 : is_digit c1) by apply Hds. unfold is_digit in Hc1.
    cbv zeta. unfold Zig.lower.
    destruct ((65 <=? byte_val c1) && (byte_val c1 <=? 90)) eqn:E.
    { apply andb_true_iff in E as [E1 E2]. lia. }
    destruct (Z.eqb_spec (byte_val c1) 98); [lia |].
    destruct (Z.eqb_spec (byte_val c1) 111); [lia |].
    destruct (Z.eqb_spec (byte_val c1) 120); [lia | done]. }
  rewrite Hpre. cbn [default].
  destruct (Ascii.eqb_spec c0 "_") as [->|_].
  { pose proof (eq_refl : byte_val "_" = 95). lia. }
  rewrite bool_decide_eq_false_2 by (by apply digits_last).
  cbn [orb]. by apply parse_digits_dec.
Qed.

Lemma raw_lines_line (l rest cur : string) :
  count_byte helpers.NL l = 0%nat →
  helpers.raw_lines (l ++ String helpers.NL rest) cur
  = (cur ++ l) :: helpers.raw_lines rest EmptyString.
Proof.
  revert cur. induction l as [|c l IH]; intros cur Hnl.
  - rewrite app_nil_l, string_app_nil_r. cbn [helpers.raw_lines].
    by rewrite Ascii.eqb_refl.
  - rewrite app_cons. cbn [helpers.raw_lines]. cbn [count_byte] in Hnl.
    destruct (Ascii.eqb c helpers.NL); [done |].
    rewrite IH by done. by rewrite string_app_assoc, app_cons, app_nil_l.
Qed.

Lemma raw_lines_last (l cur : string) :
  count_byte helpers.NL l = 0%nat → cur ++ l ≠ EmptyString →
  helpers.raw_lines l cur = [cur ++ l].
Proof.
  revert cur. induction l as [|c l IH]; intros cur Hnl Hne.
  - rewrite string_app_nil_r in *. cbn [helpers.raw_lines]. by destruct cur.
  - cbn [helpers.raw_lines]. cbn [count_byte] in Hnl.
    destruct (Ascii.eqb c helpers.NL); [done |].
    rewrite IH; [by rewrite string_app_assoc, app_cons, app_nil_l | done |].
    rewrite string_app_assoc, app_cons, app_nil_l. done.
Qed.

Lemma raw_lines_unlines (pre : list string) (data : string) :
  Forall (λ l, count_byte helpers.NL l = 0%nat) pre →
  helpers.raw_lines (unlines pre data) EmptyString
  = (pre ++ helpers.raw_lines data EmptyString)%list.
Proof.
  induction 1 as [|l pre Hl _ IH]; [done |].
  cbn [unlines fold_right]. rewrite raw_lines_line, app_nil_l by done.
  cbn [app]. f_equal. apply IH.
Qed.

Lemma scannable_app (pre rest : list string) :
  Forall (λ l, (String.length l ≤ 255)%nat) pre →
  helpers.scannable (pre ++ rest)
  = (map helpers.dropCR pre ++ helpers.scannable rest)%list.
Proof.
  induction 1 as [|l pre Hl _ IH]; [done |].
  cbn [app helpers.scannable map].
  destruct (Z.ltb_spec (Z.of_nat (String.length l)) helpers.MaxScanTokenSize)
    as [_|Hbig]; [by rewrite IH |].
  unfold helpers.MaxScanTokenSize in Hbig. lia.
Qed.

Lemma string_of_list_ascii_snoc (xs : list ascii) (c : ascii) :
  string_of_list_ascii (xs ++ [c])
  = string_of_list_ascii xs ++ String c EmptyString.
Proof.
  induction xs as [|x xs IH]; [done |].
  cbn [app string_of_list_ascii]. by rewrite IH, app_cons.
Qed.

Lemma dropCR_cases (l : string) :
  helpers.dropCR l = l ∨ l = helpers.dropCR l ++ String helpers.CR EmptyString.
Proof.
  unfold helpers.dropCR.
  rewrite <- (string_of_list_ascii_of_string l) at 2 3.
  generalize (list_ascii_of_string l). clear l. intros xs.
  induction xs as [|c ys _] using rev_ind; [by left |].
  rewrite rev_unit. cbn [helpers.dropCR_rev].
  destruct (Ascii.eqb_spec c helpers.CR) as [->|_].
  - right. by rewrite rev_involutive, string_of_list_ascii_snoc.
  - left. cbn [rev]. by rewrite rev_involutive.
Qed.

Lemma dropCR_prefix (p l : string) :
  has_prefix p (helpers.dropCR l) → has_prefix p l.
Proof.
  intros [v Hv]. destruct (dropCR_cases l) as [<-|Hl]; [by exists v |].
  exists (v ++ String helpers.CR EmptyString).
  by rewrite <- string_app_assoc, <- Hv.
Qed.

Lemma dropCR_no_CR (l : string) :
  count_byte helpers.CR l = 0%nat → helpers.dropCR l = l.
Proof.
  intros Hl. destruct (dropCR_cases l) as [|Hcr]; [done |].
  rewrite Hcr, count_byte_app in Hl. cbn [count_byte] in Hl.
  rewrite Ascii.eqb_refl in Hl. lia.
Qed.

(** X23.  On a shappimage whose lines fit the Zig line buffer, with fewer
    than 512 of them before the first line that starts with
    [sfs_offset=], and with that line holding plain decimal digits of a
    number below [2^63], the Go and the Zig resolver return the same
    offset: the number. *)
Theorem shimg_offsets_agree (NewFile : string → error + helpers.elf_File)
    (w : World) (src : string) (pre : list string) (ds tail : string) :
  os_Open w src = Some (unlines pre (("sfs_offset=" ++ ds) ++ tail)) →
  helpers.GetAppImageType w src = ShellScript →
  Forall skipped_line pre → (length pre < 512)%nat →
  ds ≠ EmptyString → all_digits ds → (String.length ds ≤ 244)%nat →
  dec_value ds 0 < 2 ^ 63 →
  line_end tail →
  helpers.GetOffset NewFile w src = (dec_value ds 0, None)
  ∧ Zig.getOffsetFromShimg (unlines pre (("sfs_offset=" ++ ds) ++ tail))
    = Zig.Ok (dec_value ds 0).
Proof.
  intros Hopen Hkind Hpre Hlen Hne Hds Hdslen Hv Htail.
  assert (Hno : ∀ c, ¬ is_digit c →
            count_byte c "sfs_offset=" = 0%nat →
            count_byte c ("sfs_offset=" ++ ds) = 0%nat).
  { intros c Hc Hp. by rewrite count_byte_app, Hp, digits_no_byte. }
  assert (Hshort : short_line ("sfs_offset=" ++ ds)).
  { split.
    - apply Hno; [| reflexivity]. unfold is_digit.
      pose proof (eq_refl : byte_val helpers.NL = 10). lia.
    - rewrite string_length_app. cbn [String.length]. lia. }
  assert (Heq : count_byte "=" ds = 0%nat).
  { apply digits_no_byte; [done |]. unfold is_digit.
    pose proof (eq_refl : byte_val "=" = 61). lia. }
  split.
  - rewrite (GetOffset_shell NewFile w src _ Hopen Hkind).
    unfold helpers.Scanner_lines.
    rewrite raw_lines_unlines
      by (eapply Forall_impl; [exact Hpre | by intros l [[? ?] _]]).
    assert (Hraw : ∃ more,
              helpers.raw_lines (("sfs_offset=" ++ ds) ++ tail) EmptyString
              = ("sfs_offset=" ++ ds) :: more).
    { destruct Htail as [->|[rest ->]].
      - exists []. rewrite string_app_nil_r.
        rewrite raw_lines_last, app_nil_l; [done | apply Hshort |].
        rewrite app_nil_l. by rewrite app_cons.
      - eexists. rewrite raw_lines_line, app_nil_l; [done | apply Hshort]. }
    destruct Hraw as [more ->].
    rewrite scannable_app
      by (eapply Forall_impl; [exact Hpre | by intros l [[? ?] _]]).
    cbn [helpers.scannable].
    destruct (Z.ltb_spec
                (Z.of_nat (String.length ("sfs_offset=" ++ ds)))
                helpers.MaxScanTokenSize) as [_|Hbig].
    2: { unfold helpers.MaxScanTokenSize in Hbig.
         destruct Hshort as [_ Hs]. lia. }
    rewrite dropCR_no_CR.
    2: { apply Hno; [| reflexivity]. unfold is_digit.
         pose proof (eq_refl : byte_val helpers.CR = 13). lia. }
    rewrite scan_for_offset_found.
    + rewrite offset_of_line_spec, digits_unquote by done.
      by apply Atoi_digits.
    + apply Forall_map. eapply Forall_impl; [exact Hpre |].
      intros l [_ Hl] [v [Hv' _]]. apply Hl, dropCR_prefix. by exists v.
    + by exists ds.
  - unfold Zig.getOffsetFromShimg. rewrite shimg_loop_skip by (done || lia).
    destruct (512 - length pre)%nat as [|n] eqn:Hn; [lia |].
    destruct (read_first ("sfs_offset=" ++ ds) tail) as [rest Hread];
      [done | by rewrite app_cons | done |].
    cbn [Zig.shimg_loop]. rewrite Hread.
    rewrite (proj2 (zig_offset_line _)) by by exists ds.
    rewrite tokenize_offset_line, decide_False by done.
    apply parseInt_digits; [done | done | lia].
Qed.

Lemma shimg_offsets_agree_witness :
  helpers.GetOffset helpers.NewFile_ident
    (mkWorld {[ "app" := plain_shimg ]} ∅ ∅) "app" = (4096, None)
  ∧ Zig.getOffsetFromShimg plain_shimg = Zig.Ok 4096.
Proof.
  refine (shimg_offsets_agree helpers.NewFile_ident
            (mkWorld {[ "app" := plain_shimg ]} ∅ ∅) "app"
            ["#!/bin/sh"; "#.shImg.#"] "4096"
            (String helpers.NL (line "exit 0")) _ _ _ _ _ _ _ _ _).
  - vm_compute. reflexivity.
  - vm_compute. reflexivity.
  - repeat constructor; try (vm_compute; lia); intros [r Hr]; discriminate.
  - cbn [length]. lia.
  - discriminate.
  - vm_compute. intuition discriminate.
  - vm_compute. lia.
  - vm_compute. reflexivity.
  - right. by eexists.
Defined.

(** ** [loadDesktopEntry], [open] and [close] *)

Lemma entry_loop_passes (openFile : string → Zig.Result string)
    (front more : list string) :
  Forall (passes openFile) front →
  ∀ found buf, ∃ found' buf',
    Zig.entry_loop openFile (front ++ more) found buf
    = Zig.entry_loop openFile more found' buf'.
Proof.
  induction 1 as [|name front Hname _ IH]; intros found buf; [by eauto |].
  cbn [app Zig.entry_loop].
  destruct (String.eqb_spec (Zig.extension name) ".desktop") as [Hext|_];
    cbn [negb]; [| apply IH].
  destruct (Hname Hext) as [content ->]. cbn [mbind Zig.Result_bind].
  apply IH.
Qed.

Lemma loadDesktopEntry_any_buffer (openFile : string → Zig.Result string)
    (names : list string) (found1 found2 : bool) (buf1 buf2 : string) :
  @mbind Zig.Result Zig.Result_bind _ Z (λ _, Zig.Ok 0)
    (Zig.entry_loop openFile names found1 buf1)
  = @mbind Zig.Result Zig.Result_bind _ Z (λ _, Zig.Ok 0)
      (Zig.entry_loop openFile names found2 buf2).
Proof.
  revert found1 found2 buf1 buf2.
  induction names as [|name names IH]; intros found1 found2 buf1 buf2;
    [done |].
  cbn [Zig.entry_loop].
  destruct (negb _); [apply IH |].
  destruct (openFile name) as [content|e|m]; cbn [mbind Zig.Result_bind];
    [apply IH | done | done].
Qed.

(** X24.  [loadDesktopEntry] returns 0 when every desktop entry of the
    root opens, and otherwise the error of the first one that does not:
    the entries behind it are not looked at. *)
Theorem loadDesktopEntry_result (openFile : string → Zig.Result string)
    (front : list string) (buf : string) :
  Forall (passes openFile) front →
  Zig.loadDesktopEntry openFile front buf = Zig.Ok 0
  ∧ ∀ name rest e,
      Zig.extension name = ".desktop" → openFile name = Zig.Err e →
      Zig.loadDesktopEntry openFile (front ++ name :: rest) buf = Zig.Err e.
Proof.
  intros Hfront. unfold Zig.loadDesktopEntry. split.
  - destruct (entry_loop_passes openFile front [] Hfront false buf)
      as (found & buf' & Hloop).
    rewrite app_nil_r in Hloop. by rewrite Hloop.
  - intros name rest e Hext Hopen.
    destruct (entry_loop_passes openFile front (name :: rest) Hfront false buf)
      as (found & buf' & ->).
    cbn [Zig.entry_loop]. by rewrite Hext, Hopen.
Qed.

Lemma loadDesktopEntry_result_witness :
  Zig.loadDesktopEntry (Zig.root_openFile small_root)
    ["AppRun"; "app.desktop"] EmptyString = Zig.Ok 0
  ∧ Zig.loadDesktopEntry (Zig.root_openFile small_root)
      (["AppRun"; "app.desktop"] ++ ["other.desktop"; "third.desktop"])
      EmptyString
    = Zig.Err Zig.EndOfStream.
Proof.
  destruct (loadDesktopEntry_result (Zig.root_openFile small_root)
              ["AppRun"; "app.desktop"] EmptyString) as [Hok Herr].
  - repeat constructor; intros Hext; vm_compute in Hext;
      [discriminate | by eexists].
  - split; [exact Hok |]. apply Herr; reflexivity.
Defined.

(** X25.  [open] keeps the count of open images right: a call that
    returns an error leaves no image open, a call that returns a value
    leaves one more open, and [close] on that value takes it back.  The
    value carries the kind that [getKind] found and an image that the
    library opened for this file, all of whose desktop entries open; and
    nothing depends on what the undefined buffer held. *)
Theorem open_handles (SquashFs_open : string → Z → Zig.Result Zig.SquashFs)
    (undefined_buf : string) (file : string) (live : nat) :
  match Zig.open SquashFs_open undefined_buf file live with
  | (Zig.Ok a, live') =>
      live' = S live ∧ Zig.close a live' = live
      ∧ Zig.getKind file = Zig.Ok (Zig.kind a)
      ∧ (∃ offset, SquashFs_open file offset = Zig.Ok (Zig.sqfs a))
      ∧ Zig.loadDesktopEntry (Zig.root_openFile (Zig.sqfs a))
          (Zig.root_entries (Zig.sqfs a)) undefined_buf = Zig.Ok 0
  | (Zig.Err _, live') => live' = live
  | (Zig.Panic _, _) => True
  end
  ∧ ∀ other_buf,
      Zig.open SquashFs_open other_buf file live
      = Zig.open SquashFs_open undefined_buf file live.
Proof.
  unfold Zig.open. split.
  - destruct (Zig.getKind file) as [k|e|m]; [| done | done].
    destruct (match k with
              | Zig.shimg => Zig.getOffsetFromShimg file
              | _ => Zig.getOffsetFromElf file
              end) as [offset|e|m]; [| done | done].
    destruct (SquashFs_open file offset) as [s|e|m] eqn:Hs; [| done | done].
    destruct (Zig.loadDesktopEntry _ _ _) as [n|e|m] eqn:Hload;
      [| done | done].
    cbn [Zig.close Zig.kind Zig.sqfs Nat.pred]. repeat split; [by eexists |].
    revert Hload. unfold Zig.loadDesktopEntry.
    by destruct (Zig.entry_loop _ _ _ _).
  - intros other_buf.
    destruct (Zig.getKind file) as [k|e|m]; [| done | done].
    destruct (match k with
              | Zig.shimg => Zig.getOffsetFromShimg file
              | _ => Zig.getOffsetFromElf file
              end) as [offset|e|m]; [| done | done].
    destruct (SquashFs_open file offset) as [s|e|m]; [| done | done].
    unfold Zig.loadDesktopEntry.
    by rewrite (loadDesktopEntry_any_buffer _ _ false false other_buf
                  undefined_buf).
Qed.

(** A run of [open] on the type-2 test file: one image is open
    afterwards. *)
Example open_type2_file :
  Zig.open mount_at_1984 EmptyString type2_file 0
  = (Zig.Ok (Zig.mkAppImage small_root Zig.type2), 1%nat).
Proof. vm_compute. reflexivity. Qed.
